(** * html5-netpbm: the ASCII NetPBM decoder of [src/index.ts]

    A shallow embedding of [NetPBMImage] (constructor, tokenizer, number
    parsing, format detection and [render]) together with the parts of the
    JavaScript platform the decoder relies on: strings as sequences of UTF-16
    code units, [parseInt], IEEE 754 binary64 arithmetic, and the browser's
    [ImageData] object with its [Uint8ClampedArray] pixel store. *)

From Stdlib Require Import ZArith NArith List Bool Lia String Ascii.
From Stdlib Require Import SpecFloat.
From stdpp Require Import base list.
Import ListNotations.

Local Open Scope Z_scope.

(** ** JavaScript strings *)

(** A JavaScript string is a sequence of UTF-16 code units. *)
Definition char := N.
Definition jsstring := list char.

(** String literals of the development: every byte is one code unit. *)
Definition lit (s : string) : jsstring :=
  map N_of_ascii (list_ascii_of_string s).

Definition LF : char := 10%N.
Definition CR : char := 13%N.
Definition SPACE : char := 32%N.
Definition HASH : char := 35%N.

(** [s.split(sep)] for a separator of one code unit. The empty string
    splits into one empty piece. *)
Fixpoint split (sep : char) (s : jsstring) : list jsstring :=
  match s with
  | [] => [[]]
  | c :: s' =>
      if N.eqb c sep then [] :: split sep s'
      else match split sep s' with
           | [] => [[c]]
           | w :: ws => (c :: w) :: ws
           end
  end.

(** [s.split("")]: one piece per code unit, none for the empty string. *)
Definition split_chars (s : jsstring) : list jsstring :=
  map (fun c => [c]) s.

(** [a.join(sep)] *)
Fixpoint join (sep : jsstring) (a : list jsstring) : jsstring :=
  match a with
  | [] => []
  | [w] => w
  | w :: ws => w ++ sep ++ join sep ws
  end.

(** The code units that the regular expression atom [.] does not match:
    LF, CR, LINE SEPARATOR and PARAGRAPH SEPARATOR. *)
Definition is_LineTerminator (c : char) : bool :=
  (N.eqb c 10 || N.eqb c 13 || N.eqb c 8232 || N.eqb c 8233)%N.

(** The longest match of [.*] at the start of [s] is skipped. *)
Fixpoint skip_dots (s : jsstring) : jsstring :=
  match s with
  | [] => []
  | c :: s' => if is_LineTerminator c then s else skip_dots s'
  end.

(** [line.replace(/#.*/, "")]: the first match only (no [g] flag), that is
    the leftmost [#] with everything up to the next line terminator. *)
Fixpoint replace_comment (line : jsstring) : jsstring :=
  match line with
  | [] => []
  | c :: s' => if N.eqb c HASH then skip_dots s' else c :: replace_comment s'
  end.

(** ** Numbers *)

(** A JavaScript Number is an IEEE 754 binary64 value. *)
Definition number := spec_float.

Definition prec : Z := 53.
Definition emax : Z := 1024.

Definition NaN : number := S754_nan.

(** The Number value for a mathematical integer [z] (round to nearest, ties
    to even; [szero] is the sign given to a zero). *)
Definition of_Z (z : Z) (szero : bool) : number :=
  binary_normalize prec emax z 0 szero.

Definition js_sub : number -> number -> number := SFsub prec emax.
Definition js_mul : number -> number -> number := SFmul prec emax.
Definition js_div : number -> number -> number := SFdiv prec emax.

(** An array element read [a[i]] is [None] for [undefined]; [ToNumber]
    turns [undefined] into NaN. *)
Definition ToNumber (v : option number) : number :=
  match v with
  | Some n => n
  | None => NaN
  end.

(** ** parseInt *)

(** WhiteSpace and LineTerminator code units, stripped by [parseInt]. *)
Definition is_StrWhiteSpaceChar (c : char) : bool :=
  ((9 <=? c) && (c <=? 13) || N.eqb c 32 || N.eqb c 160 || N.eqb c 5760
   || (8192 <=? c) && (c <=? 8202) || N.eqb c 8232 || N.eqb c 8233
   || N.eqb c 8239 || N.eqb c 8287 || N.eqb c 12288 || N.eqb c 65279)%N.

Fixpoint trim_start (s : jsstring) : jsstring :=
  match s with
  | [] => []
  | c :: s' => if is_StrWhiteSpaceChar c then trim_start s' else s
  end.

(** The value of a digit or letter used as a digit. *)
Definition digit_value (c : char) : option Z :=
  if ((48 <=? c) && (c <=? 57))%N then Some (Z.of_N c - 48)
  else if ((97 <=? c) && (c <=? 122))%N then Some (Z.of_N c - 97 + 10)
  else if ((65 <=? c) && (c <=? 90))%N then Some (Z.of_N c - 65 + 10)
  else None.

Definition radix_digit (R : Z) (c : char) : option Z :=
  match digit_value c with
  | Some d => if d <? R then Some d else None
  | None => None
  end.

(** The digits of the longest prefix of [s] made of radix-[R] digits. *)
Fixpoint digits_prefix (R : Z) (s : jsstring) : list Z :=
  match s with
  | [] => []
  | c :: s' =>
      match radix_digit R c with
      | Some d => d :: digits_prefix R s'
      | None => []
      end
  end.

Definition mathInt (R : Z) (ds : list Z) : Z :=
  fold_left (fun acc d => acc * R + d) ds 0.

Definition MINUS : char := 45%N.
Definition PLUS : char := 43%N.

(** A leading "0x" or "0X" selects radix 16 and is removed; otherwise the
    radix is 10. *)
Definition strip_prefix (s : jsstring) : Z * jsstring :=
  match s with
  | c0 :: c1 :: s' =>
      if (N.eqb c0 48 && (N.eqb c1 120 || N.eqb c1 88))%bool then (16, s')
      else (10, s)
  | _ => (10, s)
  end.

(** [parseInt(string)] with no radix argument (ECMA-262, 19.2.5): leading
    white space, then a sign, then the radix prefix are removed, and the
    longest run of digits is the integer; NaN when that run is empty. The
    result is the Number nearest to the integer (the standard lets an engine
    approximate a decimal integer beyond its 20th significant digit; the
    exact integer is taken here). *)
Definition parseInt (input : jsstring) : number :=
  let s0 := trim_start input in
  let negative :=
    match s0 with
    | c :: _ => N.eqb c MINUS
    | [] => false
    end in
  let s1 :=
    match s0 with
    | c :: s' => if (N.eqb c PLUS || N.eqb c MINUS)%bool then s' else s0
    | [] => s0
    end in
  let '(R, s2) := strip_prefix s1 in
  match digits_prefix R s2 with
  | [] => NaN
  | ds =>
      let m := mathInt R ds in
      of_Z (if negative then - m else m) negative
  end.

(** ** Tokenizer and number lists *)

Definition get_tokens_from_ascii (ascii : jsstring) : list jsstring :=
  filter (fun x => bool_decide (0 < length x)%nat)
    (split SPACE
       (join [SPACE]
          (map replace_comment
             (split LF
                (drop 2 ascii))))).

Definition process_ascii (ascii : jsstring) : list number :=
  map parseInt (get_tokens_from_ascii ascii).

Definition process_ascii_P1 (ascii : jsstring) : list number :=
  let tokens := get_tokens_from_ascii ascii in
  let dimensions := map parseInt (take 2 tokens) in
  let numbers := map parseInt (split_chars (join [] (drop 2 tokens))) in
  dimensions ++ numbers.

(** ** Outcomes *)

(** What the constructor can throw. *)
Inductive exn :=
  | Error (message : jsstring)   (* [throw Error(...)] in [detect_format] *)
  | IndexSizeError               (* DOMException of [new ImageData] *)
  | RangeError                   (* the pixel buffer cannot be allocated *)
  | TypeError.                   (* a method call on [undefined] *)

(** A call returns, throws, or never terminates. *)
Inductive outcome (A : Type) :=
  | Returns (a : A)
  | Throws (e : exn)
  | Loops.
Arguments Returns {A} a.
Arguments Throws {A} e.
Arguments Loops {A}.

#[global] Instance outcome_bind : MBind outcome := fun A B k o =>
  match o with
  | Returns a => k a
  | Throws e => Throws e
  | Loops => Loops
  end.

(** ** Format detection *)

Inductive NetPBMFormat := P1 | P2 | P3 | P4 | P5 | P6.

(** [magic in MAGICS]: the object has the own keys "P1", "P2", "P3", and no
    property name inherited from [Object.prototype] has two code units. *)
Definition MAGICS (magic : jsstring) : option NetPBMFormat :=
  match magic with
  | [80%N; 49%N] => Some P1
  | [80%N; 50%N] => Some P2
  | [80%N; 51%N] => Some P3
  | _ => None
  end.

Definition detect_format (imagedata : jsstring) : outcome NetPBMFormat :=
  let magic := take 2 imagedata in
  match MAGICS magic with
  | Some f => Returns f
  | None => Throws (Error (lit "Unsupported NetPBM format: " ++ magic))
  end.

(** ** ImageData and its Uint8ClampedArray *)

(** [ToUint8Clamp] (ECMA-262, 7.1.12), the conversion applied by every store
    into a [Uint8ClampedArray]: NaN gives 0, the value is clamped to
    [0, 255] and rounded to the nearest integer, ties to even. *)
Definition ToUint8Clamp (v : number) : Z :=
  match v with
  | S754_nan => 0
  | S754_zero _ => 0
  | S754_infinity s => if s then 0 else 255
  | S754_finite true _ _ => 0
  | S754_finite false m e =>
      if 0 <=? e then Z.min 255 (Z.pos m * 2 ^ e)
      else
        let d := 2 ^ (- e) in
        if 255 * d <=? Z.pos m then 255
        else
          let f := Z.pos m / d in
          match 2 * (Z.pos m mod d) ?= d with
          | Lt => f
          | Gt => f + 1
          | Eq => if Z.even f then f else f + 1
          end
  end.

(** [IntegerPart]: the value truncated toward zero; 0 for NaN, zeros and
    infinities, as the Web IDL integer conversions want it. *)
Definition IntegerPart (v : number) : Z :=
  match v with
  | S754_finite s m e =>
      let a := if 0 <=? e then Z.pos m * 2 ^ e else Z.pos m / 2 ^ (- e) in
      if s then - a else a
  | _ => 0
  end.

(** Web IDL conversion of an argument to [unsigned long] (no [EnforceRange],
    no [Clamp]): the integer part modulo 2^32. *)
Definition to_unsigned_long (v : option number) : Z :=
  IntegerPart (ToNumber v) mod 2 ^ 32.

Record ImageData := {
  width : Z;
  height : Z;
  data : list Z
}.

(** [data[i] = v] on the clamped array; a store past the end is ignored. *)
Definition store (d : list Z) (i : nat) (v : number) : list Z :=
  <[i := ToUint8Clamp v]> d.

(** ** The loops and the pixel body of [render] *)

Record Size := { x : option number; y : option number }.

(** [for (let i = 0; i < n; i++) body], threading the state. *)
Definition for_loop {S : Type} (n : nat) (body : nat -> S -> S) (s : S) : S :=
  fold_left (fun s i => body i s) (seq 0 n) s.

(** How many times [for (let i = 0; i < bound; i++)] runs its body; [None]
    when it never ends: the counter is a Number and [i++] stops growing at
    2^53. *)
Definition trip_count (bound : number) : option nat :=
  match bound with
  | S754_nan | S754_zero _ | S754_infinity true | S754_finite true _ _ =>
      Some 0%nat
  | S754_infinity false => None
  | S754_finite false m e =>
      let n := if 0 <=? e then Z.pos m * 2 ^ e
               else (Z.pos m + 2 ^ (- e) - 1) / 2 ^ (- e) in
      if n <=? 2 ^ 53 then Some (Z.to_nat n) else None
  end.

Definition c0xff : number := of_Z 255 false.

(** The lookup table of [render]; the formats P4 to P6 have no entry (the
    value is not used for them). *)
Definition numbersPerPixel (format : NetPBMFormat) : nat :=
  match format with
  | P1 => 1
  | P2 => 1
  | P3 => 3
  | _ => 0
  end.

(** The body of the inner loop of [render] for the pixel number [pnum]. *)
Definition render_pixel (format : NetPBMFormat) (depth : option number)
    (numbers : list number) (pnum : nat) (d : list Z) : list Z :=
  let npp := numbersPerPixel format in
  let d :=
    match format with
    | P1 =>
        for_loop 3 (fun i d =>
          store d (4 * pnum + i)
            (js_sub c0xff (js_mul (ToNumber (numbers !! (npp * pnum)%nat)) c0xff))) d
    | P2 | P3 =>
        for_loop 3 (fun i d =>
          store d (4 * pnum + i)
            (js_mul (js_div (ToNumber (numbers !! (npp * pnum + i mod npp)%nat))
                            (ToNumber depth)) c0xff)) d
    | _ => d
    end in
  store d (4 * pnum + 3) c0xff.

(** ** [new ImageData], [render] and the constructor *)

Section Decoder.

(** Whether the engine can allocate a pixel buffer of the given number of
    bytes. *)
Variable can_allocate : Z -> bool.

(** [new ImageData(sw, sh)]: IndexSizeError when [sw] or [sh] converts to
    zero; otherwise a zero-filled buffer of [4 * sw * sh] bytes, RangeError
    when it cannot be allocated (never beyond 2^53 - 1 elements). *)
Definition new_ImageData (sw sh : option number) : outcome ImageData :=
  let w := to_unsigned_long sw in
  let h := to_unsigned_long sh in
  if (w =? 0) || (h =? 0) then Throws IndexSizeError
  else if (4 * w * h <=? 2 ^ 53 - 1) && can_allocate (4 * w * h)
  then Returns {| width := w; height := h;
                  data := replicate (Z.to_nat (4 * w * h)) 0 |}
  else Throws RangeError.

(** [render]. The constructor passes sizes that [parseInt] produced: NaN,
    an infinity or an integer; for them the pixel number
    [y * image_size.x + x] is the integer [y * nx + x], where [nx] is the
    number of turns of the inner loop. Array indices are exact: an index the
    Number arithmetic would round is beyond 2^53 and so beyond the end of
    both arrays, where a read gives [undefined] and a store is ignored. *)
Definition render (format : NetPBMFormat) (image_size : Size)
    (depth : option number) (numbers : list number) : outcome ImageData :=
  newImageData ← new_ImageData (x image_size) (y image_size);
  match trip_count (ToNumber (y image_size)) with
  | None => Loops
  | Some O => Returns newImageData
  | Some ny =>
      match trip_count (ToNumber (x image_size)) with
      | None => Loops
      | Some nx =>
          Returns {|
            width := width newImageData;
            height := height newImageData;
            data :=
              for_loop ny (fun y d =>
                for_loop nx (fun x d =>
                  let pnum := (y * nx + x)%nat in
                  render_pixel format depth numbers pnum d) d)
                (data newImageData) |}
      end
  end.

(** [new NetPBMImage(ppmascii)] *)
Definition NetPBMImage_constructor (ppmascii : jsstring) : outcome ImageData :=
  format ← detect_format ppmascii;
  match format with
  | P1 =>
      let numbers := process_ascii_P1 ppmascii in
      let image_size := {| x := numbers !! 0%nat; y := numbers !! 1%nat |} in
      render format image_size None (drop 2 numbers)
  | P2 | P3 =>
      let numbers := process_ascii ppmascii in
      let image_size := {| x := numbers !! 0%nat; y := numbers !! 1%nat |} in
      let depth := numbers !! 2%nat in
      render format image_size depth (drop 3 numbers)
  | _ => Throws TypeError
  end.

(** [NetPBM.parse(ascii)], the decoder's entry point. *)
Definition parse (ascii : jsstring) : outcome ImageData :=
  NetPBMImage_constructor ascii.

End Decoder.

(** ** The earlier decoder, [PPMCanvas] *)

Module PPMCanvas.

(** [PPMCanvas.process_ascii]: the first line goes as a whole, whatever it
    holds after the magic. *)
Definition process_ascii (ascii : jsstring) : list number :=
  map parseInt
    (filter (fun x => bool_decide (0 < length x)%nat)
       (split SPACE
          (join [SPACE]
             (map replace_comment
                (drop 1
                   (split LF ascii)))))).

(** [PPMCanvas.detect_format]: [undefined] for a magic that is not in the
    list. *)
Definition detect_format (imagedata : jsstring) : option NetPBMFormat :=
  let MAGIC := take 2 imagedata in
  if existsb (fun m => bool_decide (m = MAGIC)) (split 44%N (lit "P1,P2,P3"))
  then MAGICS MAGIC
  else None.

(** The body of the inner loop of [PPMCanvas.render]. *)
Definition render_pixel (format : option NetPBMFormat) (depth : option number)
    (numbers : list number) (pnum : nat) (d : list Z) : list Z :=
  let gray := js_mul (js_div (ToNumber (numbers !! pnum)) (ToNumber depth)) c0xff in
  let channel i :=
    js_mul (js_div (ToNumber (numbers !! (3 * pnum + i)%nat)) (ToNumber depth))
      c0xff in
  let d :=
    match format with
    | Some P2 =>
        store (store (store d (4 * pnum + 0) gray) (4 * pnum + 1) gray)
          (4 * pnum + 2) gray
    | _ => d
    end in
  let d :=
    match format with
    | Some P3 =>
        store (store (store d (4 * pnum + 0) (channel 0%nat))
                 (4 * pnum + 1) (channel 1%nat))
          (4 * pnum + 2) (channel 2%nat)
    | _ => d
    end in
  store d (4 * pnum + 3) c0xff.

End PPMCanvas.

(** * Vocabulary of the statements *)

(** The formats [detect_format] can return. *)
Definition supported (format : NetPBMFormat) : Prop :=
  format = P1 \/ format = P2 \/ format = P3.

(** The index of the sample that [render] reads for channel [i] of the
    pixel number [p]. *)
Definition sample_index (format : NetPBMFormat) (p i : nat) : nat :=
  let npp := numbersPerPixel format in
  match format with
  | P1 => npp * p
  | _ => npp * p + i mod npp
  end.

(** The Number that [render] assigns to channel [i] (0, 1, 2) of the pixel
    number [p], before the clamped array converts it. *)
Definition channel_value (format : NetPBMFormat) (depth : option number)
    (numbers : list number) (p i : nat) : number :=
  let sample := ToNumber (numbers !! sample_index format p i) in
  match format with
  | P1 => js_sub c0xff (js_mul sample c0xff)
  | _ => js_mul (js_div sample (ToNumber depth)) c0xff
  end.


(** The pixel loop of [render] flattened: the first [n] pixel numbers in
    order. *)
Definition render_pixels (format : NetPBMFormat) (depth : option number)
    (numbers : list number) (n : nat) (d : list Z) : list Z :=
  for_loop n (render_pixel format depth numbers) d.

(** The [k]-th header number as the constructor reads it: the [k]-th token
    parsed, [None] ([undefined]) when there is no such token. *)
Definition header_token (k : nat) (ascii : jsstring) : option number :=
  parseInt <$> get_tokens_from_ascii ascii !! k.

(** The integer a header number stands for (0 for [undefined] and NaN). *)
Definition header_int (k : nat) (ascii : jsstring) : Z :=
  IntegerPart (ToNumber (header_token k ascii)).

(** The maxValue [depth] and the sample list [numbers.slice(hdrsize)] that
    the constructor hands to [render]. *)
Definition declared_depth (format : NetPBMFormat) (ascii : jsstring)
    : option number :=
  match format with
  | P1 => None
  | _ => header_token 2 ascii
  end.

Definition samples (format : NetPBMFormat) (ascii : jsstring) : list number :=
  match format with
  | P1 => drop 2 (process_ascii_P1 ascii)
  | _ => drop 3 (process_ascii ascii)
  end.

(** A finite Number that is an integer. *)
Definition integral (v : number) : Prop :=
  match v with
  | S754_finite _ m e => 0 <= e \/ Z.pos m mod 2 ^ (- e) = 0
  | _ => True
  end.

(** The value [m * 2 ^ e] is at least the integer [K]. *)
Definition ge_int (m e K : Z) : Prop :=
  if 0 <=? e then K <= m * 2 ^ e else K * 2 ^ (- e) <= m.

(** The maximal non-empty runs of code units that are not separators, in
    their order in [s]. *)
Fixpoint fields (sep : char -> bool) (s : jsstring) : list jsstring :=
  match s with
  | [] => []
  | c :: s' =>
      if sep c then fields sep s'
      else match s' with
           | [] => [[c]]
           | c' :: _ =>
               if sep c' then [c] :: fields sep s'
               else match fields sep s' with
                    | w :: ws => (c :: w) :: ws
                    | [] => [[c]]
                    end
           end
  end.

(** The separators of the tokenizer: the space and the line feed. *)
Definition space_or_newline (c : char) : bool :=
  N.eqb c SPACE || N.eqb c LF.

(** The text that is left after the magic is dropped and the comments are
    removed line by line, with its lines as in the input. *)
Definition comment_free_text (ascii : jsstring) : jsstring :=
  join [LF] (map replace_comment (split LF (drop 2 ascii))).

(** Vocabulary for tokens: decimal and hexadecimal digits, the end of a run
    of radix-[R] digits, and the "0x" prefix. *)
Definition is_decimal_digit (c : char) : Prop := (48 <= c <= 57)%N.

Definition is_hex_digit (c : char) : Prop :=
  (48 <= c <= 57 \/ 97 <= c <= 102 \/ 65 <= c <= 70)%N.

Definition stops (R : Z) (rest : jsstring) : Prop :=
  match rest with
  | [] => True
  | c :: _ => radix_digit R c = None
  end.

Definition hex_prefixed (s : jsstring) : bool :=
  match s with
  | c0 :: c1 :: _ => N.eqb c0 48 && (N.eqb c1 120 || N.eqb c1 88)
  | _ => false
  end.

(** A header number that [new ImageData] cannot take as a size: absent,
    NaN or zero. *)
Definition not_a_dimension (v : option number) : Prop :=
  v = None \/ v = Some NaN \/ exists s : bool, v = Some (S754_zero s).

(** A byte of a bitmap: black, or white (and the opaque alpha). *)
Definition is_black_or_white (b : Z) : Prop := b = 0 \/ b = 255.

(** What [parseInt] makes of a single code unit: NaN or a decimal digit. *)
Definition is_digit_or_NaN (v : number) : Prop :=
  v = NaN \/ exists k : Z, 0 <= k <= 9 /\ v = of_Z k false.

(** The number of samples that lie inside the header's grid. *)
Definition grid_samples (format : NetPBMFormat) (ascii : jsstring) : nat :=
  (numbersPerPixel format
   * (Z.to_nat (header_int 1 ascii) * Z.to_nat (header_int 0 ascii)))%nat.

(** Numbers that the clamped array stores as 0: NaN, the zeros and the
    negative numbers. *)
Definition not_positive (v : number) : bool :=
  match v with
  | S754_nan | S754_zero _ | S754_infinity true | S754_finite true _ _ => true
  | _ => false
  end.

(** Numbers without a minus sign (NaN among them). *)
Definition not_negative (v : number) : bool :=
  match v with
  | S754_nan | S754_zero false | S754_infinity false | S754_finite false _ _ =>
      true
  | _ => false
  end.

(** The code units a comment can hold: all but the line terminators. *)
Definition comment_text (c : jsstring) : Prop :=
  Forall (fun ch => is_LineTerminator ch = false) c.

(** A place where a line of the input starts: the beginning, or after a line
    feed; and where it ends: the end, or before a line feed. *)
Definition line_start (before : jsstring) : Prop :=
  before = [] \/ exists b, before = b ++ [LF].

Definition line_end (after : jsstring) : Prop :=
  after = [] \/ exists a, after = LF :: a.

(** ** Example inputs *)

Definition nl : string := String (ascii_of_nat 10) EmptyString.
Definition cr : string := String (ascii_of_nat 13) EmptyString.
Definition tab : string := String (ascii_of_nat 9) EmptyString.

(** An engine that allocates buffers of up to 2^31 - 1 bytes. *)
Definition up_to_2GiB (bytes : Z) : bool := bytes <=? 2 ^ 31 - 1.

(** The scenarios of the specification. *)
Definition bitmap_2x2 : jsstring :=
  lit ("P1" ++ nl ++ "2 2" ++ nl ++ "0 1" ++ nl ++ "1 0" ++ nl).
Definition gray_with_comment : jsstring :=
  lit ("P2" ++ nl ++ "#note" ++ nl ++ "2 1" ++ nl ++ "255" ++ nl ++ "10 20" ++ nl).
Definition gray_one_sample_short : jsstring :=
  lit ("P2" ++ nl ++ "2 1" ++ nl ++ "255" ++ nl ++ "10" ++ nl).
Definition magic_P9 : jsstring :=
  lit ("P9" ++ nl ++ "1 1" ++ nl ++ "255" ++ nl ++ "0" ++ nl).

(** Further inputs. *)
Definition bitmap_with_stray_characters : jsstring :=
  lit ("P1" ++ nl ++ "3 1" ++ nl ++ "07x" ++ nl).
Definition gray_half : jsstring :=
  lit ("P2" ++ nl ++ "1 1" ++ nl ++ "2" ++ nl ++ "1" ++ nl).
Definition gray_maxvalue_zero : jsstring :=
  lit ("P2" ++ nl ++ "1 1" ++ nl ++ "0" ++ nl ++ "5" ++ nl).
Definition gray_size_wraps : jsstring :=
  lit ("P2" ++ nl ++ "-4294967295 -4294967295" ++ nl ++ "255" ++ nl ++ "7" ++ nl).
Definition gray_width_zero : jsstring :=
  lit ("P2" ++ nl ++ "0 1" ++ nl ++ "255" ++ nl ++ "7" ++ nl).
Definition gray_tab_separated : jsstring :=
  lit ("P2" ++ nl ++ "2" ++ tab ++ "1" ++ nl ++ "255" ++ nl ++ "10 20" ++ nl).
Definition gray_comment_with_cr : jsstring :=
  lit ("P2" ++ nl ++ "#see" ++ cr ++ "note" ++ nl ++ "2 1" ++ nl ++ "255" ++ nl
       ++ "10 20" ++ nl).
Definition gray_comment_then_crlf : jsstring :=
  lit ("P2" ++ nl ++ "#note" ++ cr ++ nl ++ "2 1" ++ nl ++ "255" ++ nl
       ++ "10 20" ++ nl).
Definition gray_hex_prefix_only : jsstring :=
  lit ("P2" ++ nl ++ "0x 1" ++ nl ++ "255" ++ nl ++ "0" ++ nl).

Definition gray_two_pixels : jsstring :=
  lit ("P2" ++ nl ++ "2 1" ++ nl ++ "255" ++ nl ++ "10 20" ++ nl).
Definition gray_two_pixels_and_more : jsstring :=
  lit ("P2" ++ nl ++ "2 1" ++ nl ++ "255" ++ nl ++ "10 20 30 40" ++ nl).
Definition bitmap_2x2_packed : jsstring :=
  lit ("P1" ++ nl ++ "2 2" ++ nl ++ "0110" ++ nl).

Definition gray_commented_lines : jsstring :=
  lit ("P2" ++ nl ++ "2 1 # width and height" ++ nl ++ "255" ++ nl
       ++ "10 20" ++ nl).
Definition gray_negative_sample : jsstring :=
  lit ("P2" ++ nl ++ "1 1" ++ nl ++ "255" ++ nl ++ "-7" ++ nl).
Definition pix_two_gray_pixels : jsstring :=
  lit ("P3" ++ nl ++ "2 1" ++ nl ++ "255" ++ nl ++ "10 10 10 20 20 20" ++ nl).
Definition gray_full_scale : jsstring :=
  lit ("P2" ++ nl ++ "1 1" ++ nl ++ "15" ++ nl ++ "15" ++ nl).
(** * Properties *)

(** ** Loops *)

Lemma for_loop_S {S : Type} (n : nat) (body : nat -> S -> S) (s : S) :
  for_loop (Datatypes.S n) body s = body n (for_loop n body s).
Proof.
  unfold for_loop. rewrite seq_S, fold_left_app. reflexivity.
Qed.

Lemma for_loop_add {S : Type} (a b : nat) (body : nat -> S -> S) (s : S) :
  for_loop (a + b) body s
  = for_loop b (fun i => body (a + i)%nat) (for_loop a body s).
Proof.
  induction b as [|b IH].
  - rewrite Nat.add_0_r. reflexivity.
  - rewrite Nat.add_succ_r, !for_loop_S, IH. reflexivity.
Qed.

(** The two nested loops of [render] visit the pixel numbers in order. *)
Lemma for_loop_nested {S : Type} (ny nx : nat) (body : nat -> S -> S) (s : S) :
  for_loop ny (fun y s => for_loop nx (fun x s => body (y * nx + x)%nat s) s) s
  = for_loop (ny * nx) body s.
Proof.
  induction ny as [|ny IH].
  - reflexivity.
  - rewrite for_loop_S, IH.
    replace (Datatypes.S ny * nx)%nat with (ny * nx + nx)%nat by lia.
    rewrite for_loop_add. reflexivity.
Qed.

(** ** One pixel *)

Lemma store_length d i v : length (store d i v) = length d.
Proof. apply length_insert. Qed.

Lemma render_pixel_length format depth numbers p d :
  length (render_pixel format depth numbers p d) = length d.
Proof.
  unfold render_pixel. rewrite store_length.
  destruct format; cbn [for_loop seq fold_left]; rewrite ?store_length;
    reflexivity.
Qed.

Lemma render_pixel_other format depth numbers p d (j : nat) :
  (j < 4 * p \/ 4 * p + 4 <= j)%nat ->
  render_pixel format depth numbers p d !! j = d !! j.
Proof.
  intros Hj. unfold render_pixel, store.
  rewrite list_lookup_insert_ne by lia.
  destruct format; cbn [for_loop seq fold_left]; try reflexivity;
    rewrite !list_lookup_insert_ne by lia; reflexivity.
Qed.

Lemma render_pixel_alpha format depth numbers p d :
  (4 * p + 3 < length d)%nat ->
  render_pixel format depth numbers p d !! (4 * p + 3)%nat = Some 255.
Proof.
  intros Hlen. unfold render_pixel, store.
  rewrite list_lookup_insert_eq.
  - reflexivity.
  - destruct format; cbn [for_loop seq fold_left]; rewrite ?length_insert;
      exact Hlen.
Qed.

Lemma render_pixel_rgb format depth numbers p d (i : nat) :
  supported format -> (i < 3)%nat -> (4 * p + i < length d)%nat ->
  render_pixel format depth numbers p d !! (4 * p + i)%nat
  = Some (ToUint8Clamp (channel_value format depth numbers p i)).
Proof.
  intros Hf Hi Hlen. unfold render_pixel, store.
  rewrite list_lookup_insert_ne by lia.
  assert (Hcases : i = 0%nat \/ i = 1%nat \/ i = 2%nat) by lia.
  destruct Hf as [-> | [-> | ->]]; cbn [for_loop seq fold_left];
    destruct Hcases as [-> | [-> | ->]];
    repeat first
      [ rewrite list_lookup_insert_eq by (rewrite ?length_insert; lia)
      | rewrite list_lookup_insert_ne by lia ];
    reflexivity.
Qed.

(** ** All pixels *)

Section Pixels.

Variables (format : NetPBMFormat) (depth : option number)
  (numbers : list number).

Local Abbreviation pixels := (render_pixels format depth numbers).

Lemma pixels_S n d :
  pixels (S n) d = render_pixel format depth numbers n (pixels n d).
Proof. apply for_loop_S. Qed.

Lemma pixels_length n d : length (pixels n d) = length d.
Proof.
  induction n as [|n IH]; [reflexivity|].
  rewrite pixels_S, render_pixel_length. exact IH.
Qed.

Lemma pixels_alpha n d (p : nat) :
  (p < n)%nat -> (4 * p + 3 < length d)%nat ->
  pixels n d !! (4 * p + 3)%nat = Some 255.
Proof.
  intros Hp Hlen. induction n as [|n IH]; [lia|].
  rewrite pixels_S.
  destruct (decide (p = n)) as [-> | Hne].
  - apply render_pixel_alpha. rewrite pixels_length. exact Hlen.
  - rewrite render_pixel_other by lia. apply IH. lia.
Qed.

Lemma pixels_rgb n d (p i : nat) :
  supported format -> (p < n)%nat -> (i < 3)%nat ->
  (4 * p + i < length d)%nat ->
  pixels n d !! (4 * p + i)%nat
  = Some (ToUint8Clamp (channel_value format depth numbers p i)).
Proof.
  intros Hf Hp Hi Hlen. induction n as [|n IH]; [lia|].
  rewrite pixels_S.
  destruct (decide (p = n)) as [-> | Hne].
  - apply render_pixel_rgb; [assumption | assumption |].
    rewrite pixels_length. exact Hlen.
  - rewrite render_pixel_other by lia. apply IH. lia.
Qed.

End Pixels.

(** ** The constructor in terms of the header and the samples *)

Lemma process_ascii_header k ascii :
  process_ascii ascii !! k = header_token k ascii.
Proof. unfold process_ascii, header_token. apply list_lookup_fmap. Qed.

Lemma process_ascii_P1_header k ascii :
  (k < 2)%nat -> process_ascii_P1 ascii !! k = header_token k ascii.
Proof.
  intros Hk. unfold process_ascii_P1, header_token.
  set (tokens := get_tokens_from_ascii ascii).
  destruct (decide (k < length tokens)%nat) as [Hlt | Hge].
  - rewrite lookup_app_l by (rewrite length_map, length_take; lia).
    change (map parseInt (take 2 tokens)) with (parseInt <$> take 2 tokens).
    rewrite list_lookup_fmap, lookup_take_lt by lia. reflexivity.
  - rewrite (drop_ge tokens 2) by lia. cbn [join split_chars map].
    rewrite app_nil_r.
    change (map parseInt (take 2 tokens)) with (parseInt <$> take 2 tokens).
    rewrite list_lookup_fmap, lookup_take_lt by lia. reflexivity.
Qed.

Lemma detect_format_supported ascii format :
  detect_format ascii = Returns format -> supported format.
Proof.
  unfold detect_format.
  destruct (MAGICS (take 2 ascii)) as [f|] eqn:E; [|discriminate].
  intros [= <-]. revert E. unfold MAGICS, supported.
  repeat (case_match; try discriminate); intros [= <-]; auto.
Qed.

Section Constructor.

Variable can_allocate : Z -> bool.

Lemma parse_render ascii format :
  detect_format ascii = Returns format ->
  parse can_allocate ascii
  = render can_allocate format
      {| x := header_token 0 ascii; y := header_token 1 ascii |}
      (declared_depth format ascii) (samples format ascii).
Proof.
  intros Hf. pose proof (detect_format_supported _ _ Hf) as Hs.
  unfold parse, NetPBMImage_constructor. rewrite Hf. cbn [mbind outcome_bind].
  destruct Hs as [-> | [-> | ->]]; cbn [declared_depth samples];
    rewrite ?process_ascii_P1_header, ?process_ascii_header by lia;
    reflexivity.
Qed.

End Constructor.

(** ** ImageData and the loops of [render] *)

Lemma to_unsigned_long_range v : 0 <= to_unsigned_long v < 2 ^ 32.
Proof. unfold to_unsigned_long. apply Z.mod_pos_bound. lia. Qed.

(** A loop runs at least as often as the integer part of its bound. *)
Lemma trip_count_ge bound (n : nat) :
  trip_count bound = Some n -> IntegerPart bound <= Z.of_nat n.
Proof.
  unfold trip_count, IntegerPart.
  destruct bound as [s | [|] | | [|] m e]; try (intros [= <-]; lia).
  - pose proof (Pos2Z.is_pos m). destruct (0 <=? e) eqn:He.
    + intros [= <-]. apply Z.leb_le in He.
      assert (0 < 2 ^ e) by (apply Z.pow_pos_nonneg; lia). nia.
    + intros [= <-]. apply Z.leb_gt in He.
      assert (0 < 2 ^ (- e)) by (apply Z.pow_pos_nonneg; lia).
      assert (0 <= Z.pos m / 2 ^ (- e)) by (apply Z.div_pos; lia). lia.
  - destruct (0 <=? e) eqn:He.
    + case_match; intros [= <-]. apply Z.leb_le in H. lia.
    + apply Z.leb_gt in He. case_match; intros [= <-].
      assert (Hd : 0 < 2 ^ (- e)) by (apply Z.pow_pos_nonneg; lia).
      pose proof (Pos2Z.is_pos m).
      assert (Z.pos m / 2 ^ (- e) <= (Z.pos m + 2 ^ (- e) - 1) / 2 ^ (- e))
        by (apply Z.div_le_mono; lia).
      assert (0 <= Z.pos m / 2 ^ (- e)) by (apply Z.div_pos; lia). lia.
Qed.

Section Render.

Variable can_allocate : Z -> bool.

Lemma new_ImageData_inv sw sh img :
  new_ImageData can_allocate sw sh = Returns img ->
  width img = to_unsigned_long sw /\ height img = to_unsigned_long sh
  /\ 0 < width img /\ 0 < height img
  /\ data img = replicate (Z.to_nat (4 * width img * height img)) 0.
Proof.
  unfold new_ImageData.
  pose proof (to_unsigned_long_range sw). pose proof (to_unsigned_long_range sh).
  destruct (to_unsigned_long sw =? 0) eqn:Hw; [discriminate|].
  destruct (to_unsigned_long sh =? 0) eqn:Hh; [discriminate|].
  cbn [orb]. case_match; [|discriminate]. intros [= <-]. cbn.
  apply Z.eqb_neq in Hw, Hh. repeat split; lia.
Qed.

Lemma new_ImageData_zero sw sh :
  to_unsigned_long sw = 0 \/ to_unsigned_long sh = 0 ->
  new_ImageData can_allocate sw sh = Throws IndexSizeError.
Proof.
  intros H. unfold new_ImageData.
  destruct H as [-> | ->]; cbn [Z.eqb orb]; [reflexivity|].
  rewrite orb_true_r. reflexivity.
Qed.

(** When [render] returns, it returns the buffer of [new ImageData] after
    the pixel loop. *)
Lemma render_inv format image_size depth numbers img :
  render can_allocate format image_size depth numbers = Returns img ->
  exists img0 (ny nx : nat),
    new_ImageData can_allocate (x image_size) (y image_size) = Returns img0
    /\ trip_count (ToNumber (y image_size)) = Some ny
    /\ (ny = 0%nat \/ trip_count (ToNumber (x image_size)) = Some nx)
    /\ width img = width img0 /\ height img = height img0
    /\ data img = render_pixels format depth numbers (ny * nx) (data img0).
Proof.
  unfold render.
  destruct (new_ImageData can_allocate (x image_size) (y image_size))
    as [img0 | e |] eqn:Hnew; cbn [mbind outcome_bind]; try discriminate.
  destruct (trip_count (ToNumber (y image_size))) as [[|ny] |] eqn:Hy;
    try discriminate.
  - intros [= <-]. exists img0, 0%nat, 0%nat. repeat split; auto.
  - destruct (trip_count (ToNumber (x image_size))) as [nx |] eqn:Hx;
      try discriminate.
    intros [= <-]. exists img0, (S ny), nx. cbn [width height data].
    repeat split; auto. apply for_loop_nested.
Qed.

Lemma render_ok format image_size depth numbers img0 (ny nx : nat) :
  new_ImageData can_allocate (x image_size) (y image_size) = Returns img0 ->
  trip_count (ToNumber (y image_size)) = Some ny ->
  trip_count (ToNumber (x image_size)) = Some nx ->
  render can_allocate format image_size depth numbers
  = Returns {| width := width img0; height := height img0;
               data := render_pixels format depth numbers (ny * nx) (data img0) |}.
Proof.
  intros Hnew Hy Hx. unfold render. rewrite Hnew. cbn [mbind outcome_bind].
  rewrite Hy, Hx. destruct ny as [|ny].
  - destruct img0; reflexivity.
  - unfold render_pixels. rewrite <- for_loop_nested. reflexivity.
Qed.

End Render.

(** ** The bytes of a decoded image *)

Section Decoded.

Variable can_allocate : Z -> bool.

Lemma parse_format ascii img :
  parse can_allocate ascii = Returns img ->
  exists format, detect_format ascii = Returns format.
Proof.
  unfold parse, NetPBMImage_constructor.
  destruct (detect_format ascii) as [f | e |]; cbn [mbind outcome_bind];
    try discriminate.
  eauto.
Qed.

(** The shape of a decoded image: its sizes are the header integers modulo
    2^32 and its buffer holds 4 bytes per pixel. *)
Lemma parse_shape ascii img :
  parse can_allocate ascii = Returns img ->
  width img = header_int 0 ascii mod 2 ^ 32
  /\ height img = header_int 1 ascii mod 2 ^ 32
  /\ 0 < width img /\ 0 < height img
  /\ length (data img) = Z.to_nat (4 * width img * height img).
Proof.
  intros Hp. destruct (parse_format _ _ Hp) as [format Hf].
  rewrite (parse_render _ _ _ Hf) in Hp.
  apply render_inv in Hp as (img0 & ny & nx & Hnew & _ & _ & Hw & Hh & Hd).
  apply new_ImageData_inv in Hnew as (Hw0 & Hh0 & Hwp & Hhp & Hd0).
  cbn [x y] in *. rewrite Hw, Hh, Hd.
  unfold render_pixels. fold (render_pixels format (declared_depth format ascii)
    (samples format ascii) (ny * nx) (data img0)).
  rewrite pixels_length, Hd0, length_replicate.
  repeat split; auto.
Qed.

(** With a positive header width and height, every pixel of the output has
    been written by the loop of [render]. *)
Lemma parse_pixel ascii format img (p : nat) :
  parse can_allocate ascii = Returns img ->
  detect_format ascii = Returns format ->
  0 < header_int 0 ascii -> 0 < header_int 1 ascii ->
  Z.of_nat p < width img * height img ->
  data img !! (4 * p + 3)%nat = Some 255
  /\ forall i : nat, (i < 3)%nat ->
       data img !! (4 * p + i)%nat
       = Some (ToUint8Clamp
                 (channel_value format (declared_depth format ascii)
                    (samples format ascii) p i)).
Proof.
  intros Hp Hf HW HH Hlt.
  pose proof (parse_shape _ _ Hp) as (Hw & Hh & Hwp & Hhp & Hlen).
  pose proof (detect_format_supported _ _ Hf) as Hs.
  rewrite (parse_render _ _ _ Hf) in Hp.
  apply render_inv in Hp as (img0 & ny & nx & Hnew & Hy & Hx & _ & _ & Hd).
  apply new_ImageData_inv in Hnew as (_ & _ & _ & _ & Hd0).
  cbn [x y] in *.
  apply trip_count_ge in Hy. fold (header_int 1 ascii) in Hy.
  destruct Hx as [-> | Hx]; [lia|].
  apply trip_count_ge in Hx. fold (header_int 0 ascii) in Hx.
  assert (width img <= header_int 0 ascii)
    by (rewrite Hw; apply Z.mod_le; lia).
  assert (height img <= header_int 1 ascii)
    by (rewrite Hh; apply Z.mod_le; lia).
  assert (Hpn : (p < ny * nx)%nat) by nia.
  assert (Hlen0 : length (data img0) = Z.to_nat (4 * width img * height img)).
  { rewrite Hd in Hlen. unfold render_pixels in Hlen.
    fold (render_pixels format (declared_depth format ascii)
            (samples format ascii) (ny * nx) (data img0)) in Hlen.
    rewrite pixels_length in Hlen. exact Hlen. }
  rewrite Hd. split.
  - apply pixels_alpha; [exact Hpn | lia].
  - intros i Hi. apply pixels_rgb; auto. lia.
Qed.

End Decoded.

(** ** Binary64 rounding *)

Lemma pow2_pos (n : Z) : 0 <= n -> 0 < 2 ^ n.
Proof. intros. apply Z.pow_pos_nonneg; lia. Qed.

Lemma digits2_pos_bounds (m : positive) :
  2 ^ (Z.pos (digits2_pos m) - 1) <= Z.pos m < 2 ^ Z.pos (digits2_pos m).
Proof.
  induction m as [m IH | m IH |]; cbn [digits2_pos].
  - rewrite Pos2Z.inj_succ, (Pos2Z.inj_xI m).
    replace (Z.succ (Z.pos (digits2_pos m)) - 1)
      with (Z.succ (Z.pos (digits2_pos m) - 1)) by lia.
    rewrite !Z.pow_succ_r by lia. lia.
  - rewrite Pos2Z.inj_succ, (Pos2Z.inj_xO m).
    replace (Z.succ (Z.pos (digits2_pos m)) - 1)
      with (Z.succ (Z.pos (digits2_pos m) - 1)) by lia.
    rewrite !Z.pow_succ_r by lia. lia.
  - cbn. lia.
Qed.

Lemma shr_1_m mrs : 0 <= shr_m mrs -> shr_m (shr_1 mrs) = shr_m mrs / 2.
Proof.
  destruct mrs as [[|[p|p|]|p] r s]; cbn [shr_1 shr_m]; intros H;
    try reflexivity; try lia.
  - rewrite (Pos2Z.inj_xI p). apply Z.div_unique with 1; lia.
  - rewrite (Pos2Z.inj_xO p). apply Z.div_unique with 0; lia.
Qed.

Lemma iter_pos_shr_1_m (p : positive) : forall mrs,
  0 <= shr_m mrs ->
  shr_m (SpecFloat.iter_pos shr_1 p mrs) = shr_m mrs / 2 ^ Z.pos p.
Proof.
  induction p as [p IH | p IH |]; intros mrs Hm; cbn [SpecFloat.iter_pos].
  - assert (H1 : 0 <= shr_m (shr_1 mrs))
      by (rewrite shr_1_m by lia; apply Z.div_pos; lia).
    pose proof (pow2_pos (Z.pos p) ltac:(lia)) as Hp.
    assert (H2 : 0 <= shr_m (SpecFloat.iter_pos shr_1 p (shr_1 mrs)))
      by (rewrite IH by lia; apply Z.div_pos; lia).
    rewrite IH, IH, shr_1_m by lia.
    rewrite !Z.div_div by lia.
    rewrite (Pos2Z.inj_xI p).
    replace (2 * Z.pos p + 1) with (1 + Z.pos p + Z.pos p) by lia.
    rewrite !Z.pow_add_r by lia. f_equal. change (2 ^ 1) with 2. lia.
  - pose proof (pow2_pos (Z.pos p) ltac:(lia)) as Hp.
    assert (H2 : 0 <= shr_m (SpecFloat.iter_pos shr_1 p mrs))
      by (rewrite IH by lia; apply Z.div_pos; lia).
    rewrite IH, IH by lia.
    rewrite !Z.div_div by lia.
    rewrite (Pos2Z.inj_xO p).
    replace (2 * Z.pos p) with (Z.pos p + Z.pos p) by lia.
    rewrite !Z.pow_add_r by lia. f_equal.
  - apply shr_1_m. exact Hm.
Qed.

Lemma shr_record_of_loc_m m l : shr_m (shr_record_of_loc m l) = m.
Proof. destruct l as [|[| |]]; reflexivity. Qed.

Lemma ge_int_mono m m' e K : ge_int m e K -> m <= m' -> ge_int m' e K.
Proof.
  unfold ge_int. destruct (0 <=? e) eqn:He; intros H Hle; [|lia].
  apply Z.leb_le in He. pose proof (pow2_pos e He). nia.
Qed.

Lemma ge_int_pos m e K : 0 < K -> ge_int m e K -> 0 < m.
Proof.
  unfold ge_int. destruct (0 <=? e) eqn:He; intros HK H.
  - apply Z.leb_le in He. pose proof (pow2_pos e He). nia.
  - apply Z.leb_gt in He. pose proof (pow2_pos (- e) ltac:(lia)). nia.
Qed.

(** Shifting a mantissa down to the format's precision keeps the value above
    every integer of at most 53 bits that it was above. *)
Lemma shr_fexp_lower (m e : Z) l (K : Z) :
  0 < K <= 2 ^ 53 -> ge_int m e K ->
  ge_int (shr_m (fst (shr_fexp prec emax m e l))) (snd (shr_fexp prec emax m e l)) K.
Proof.
  intros [HK0 HK] Hge. pose proof (ge_int_pos _ _ _ HK0 Hge) as Hm.
  unfold shr_fexp, shr.
  destruct m as [|pm|pm]; try lia. cbn [Zdigits2].
  set (dg := Z.pos (digits2_pos pm)).
  pose proof (digits2_pos_bounds pm) as Hdg. fold dg in Hdg.
  destruct (fexp prec emax (dg + e) - e) as [|n|n] eqn:Hn; cbn [fst snd];
    rewrite ?shr_record_of_loc_m; try exact Hge.
  rewrite iter_pos_shr_1_m by (rewrite shr_record_of_loc_m; lia).
  rewrite shr_record_of_loc_m.
  unfold fexp, emin, prec, emax in Hn.
  pose proof (pow2_pos (Z.pos n) ltac:(lia)) as Hpn.
  unfold ge_int in *.
  destruct (0 <=? e + Z.pos n) eqn:He'.
  - apply Z.leb_le in He'.
    destruct (Z.eq_dec (e + Z.pos n) 0) as [H0 | H0].
    + rewrite H0. rewrite Z.mul_1_r.
      destruct (0 <=? e) eqn:He; [apply Z.leb_le in He; lia|].
      replace (- e) with (Z.pos n) in Hge by lia.
      apply Z.div_le_lower_bound; lia.
    + assert (Hn' : Z.pos n = dg - 53) by lia.
      assert (H52 : 2 ^ 52 <= Z.pos pm / 2 ^ Z.pos n).
      { apply Z.div_le_lower_bound; [lia|].
        rewrite <- Z.pow_add_r by lia.
        replace (Z.pos n + 52) with (dg - 1) by lia. lia. }
      assert (2 ^ 1 <= 2 ^ (e + Z.pos n)) by (apply Z.pow_le_mono_r; lia).
      change (2 ^ 53) with (2 ^ 52 * 2 ^ 1) in HK.
      change (2 ^ 1) with 2 in *. nia.
  - apply Z.leb_gt in He'.
    destruct (0 <=? e) eqn:He; [apply Z.leb_le in He; lia|].
    replace (- e) with (- (e + Z.pos n) + Z.pos n) in Hge by lia.
    rewrite Z.pow_add_r in Hge by lia.
    apply Z.div_le_lower_bound; lia.
Qed.

Lemma round_nearest_even_ge m l : m <= round_nearest_even m l.
Proof.
  unfold round_nearest_even. destruct l as [|[| |]]; try lia.
  destruct (Z.even m); lia.
Qed.

(** Rounding to nearest never goes below an integer of at most 53 bits that
    the exact value is above: such an integer is itself a binary64 value. *)
Lemma binary_round_aux_lower (sx : bool) (mx ex : Z) lx (K : Z) :
  0 < K <= 2 ^ 53 -> ge_int mx ex K ->
  binary_round_aux prec emax sx mx ex lx = S754_infinity sx
  \/ exists m e,
       binary_round_aux prec emax sx mx ex lx = S754_finite sx m e
       /\ ge_int (Z.pos m) e K.
Proof.
  intros HK Hge. unfold binary_round_aux.
  pose proof (shr_fexp_lower mx ex lx K HK Hge) as H1.
  destruct (shr_fexp prec emax mx ex lx) as [mrs' e'].
  cbn [fst snd] in H1.
  set (m2 := round_nearest_even (shr_m mrs') (loc_of_shr_record mrs')).
  assert (H2 : ge_int m2 e' K)
    by (eapply ge_int_mono; [exact H1 | apply round_nearest_even_ge]).
  pose proof (shr_fexp_lower m2 e' loc_Exact K HK H2) as H3.
  destruct (shr_fexp prec emax m2 e' loc_Exact) as [mrs'' e''].
  cbn [fst snd] in H3.
  pose proof (ge_int_pos _ _ _ (proj1 HK) H3) as Hpos.
  destruct (shr_m mrs'') as [|m|m]; try lia.
  destruct (e'' <=? emax - prec); [right; eauto | left; reflexivity].
Qed.

Lemma pos_iter_xO (p d : positive) :
  Z.pos (Pos.iter xO p d) = Z.pos p * 2 ^ Z.pos d
  /\ digits2_pos (Pos.iter xO p d) = (digits2_pos p + d)%positive.
Proof.
  induction d as [|d IH] using Pos.peano_ind.
  - cbn [Pos.iter]. rewrite (Pos2Z.inj_xO p). cbn [digits2_pos].
    split; [change (2 ^ 1) with 2; lia | lia].
  - rewrite Pos.iter_succ. destruct IH as [IH1 IH2].
    rewrite (Pos2Z.inj_xO (Pos.iter xO p d)), IH1. cbn [digits2_pos].
    rewrite IH2, Pos2Z.inj_succ, Z.pow_succ_r by lia. split; lia.
Qed.

(** The Number for an integer is infinite or at least as large as every
    integer of at most 53 bits below it. *)
Lemma of_Z_lower (z K : Z) szero :
  0 < K <= 2 ^ 53 -> K <= z ->
  of_Z z szero = S754_infinity false
  \/ exists m e, of_Z z szero = S754_finite false m e /\ ge_int (Z.pos m) e K.
Proof.
  intros HK Hz. destruct z as [|p|p]; try lia.
  unfold of_Z, binary_normalize, binary_round, shl_align.
  destruct (fexp prec emax (Z.pos (digits2_pos p) + 0) - 0) as [|n|n] eqn:Hn.
  - apply binary_round_aux_lower; [exact HK|]. unfold ge_int. cbn. lia.
  - apply binary_round_aux_lower; [exact HK|]. unfold ge_int. cbn. lia.
  - apply binary_round_aux_lower; [exact HK|].
    destruct (pos_iter_xO p n) as [Hv _]. rewrite Hv.
    rewrite Z.sub_0_r in Hn. rewrite Hn. unfold ge_int. cbn [Z.leb Z.compare Z.opp].
    change (- Z.neg n) with (Z.pos n). destruct HK as [HK0 _].
    pose proof (pow2_pos (Z.pos n) ltac:(lia)). nia.
Qed.

(** The Number for an integer is never NaN. *)
Lemma of_Z_not_NaN (z : Z) szero : of_Z z szero <> NaN.
Proof.
  assert (HK : 0 < 1 <= 2 ^ 53) by (split; [lia | discriminate]).
  assert (Hp : forall sx p, binary_round prec emax sx p 0 <> NaN).
  { intros sx p. unfold binary_round, shl_align.
    assert (Hge : forall m e, e <= 0 -> Z.pos m = Z.pos p * 2 ^ (- e) ->
              binary_round_aux prec emax sx (Z.pos m) e loc_Exact <> NaN).
    { intros m e He Hm.
      destruct (binary_round_aux_lower sx (Z.pos m) e loc_Exact 1 HK)
        as [-> | (m' & e' & -> & _)]; try discriminate.
      unfold ge_int. pose proof (pow2_pos (- e) ltac:(lia)).
      destruct (0 <=? e) eqn:H0.
      - apply Z.leb_le in H0. replace e with 0 by lia. cbn. lia.
      - nia. }
    destruct (fexp prec emax (Z.pos (digits2_pos p) + 0) - 0) as [|n|n] eqn:Hn.
    - apply Hge; [lia | cbn; lia].
    - apply Hge; [lia | cbn; lia].
    - rewrite Z.sub_0_r in Hn. rewrite Hn.
      apply Hge; [lia | apply pos_iter_xO]. }
  unfold of_Z, binary_normalize. destruct z; [discriminate | apply Hp | apply Hp].
Qed.

(** A mantissa of exactly 53 bits with an exponent in range is not changed
    by rounding. *)
Lemma binary_round_aux_exact (sx : bool) (m : positive) (e : Z) :
  Z.pos (digits2_pos m) = 53 -> -1074 <= e <= 971 ->
  binary_round_aux prec emax sx (Z.pos m) e loc_Exact = S754_finite sx m e.
Proof.
  intros Hd He.
  assert (Hf : fexp prec emax (Z.pos (digits2_pos m) + e) - e = 0)
    by (unfold fexp, emin, prec, emax; lia).
  unfold binary_round_aux, shr_fexp.
  cbn [Zdigits2 shr_record_of_loc]. rewrite Hf.
  cbn [shr shr_m loc_of_shr_record round_nearest_even Zdigits2
       shr_record_of_loc].
  rewrite Hf. cbn [shr shr_m].
  replace (e <=? emax - prec) with true
    by (symmetry; apply Z.leb_le; unfold emax, prec; lia).
  reflexivity.
Qed.

(** An integer below 2^53 is a binary64 value. *)
Lemma of_Z_exact (z : Z) szero :
  0 < z < 2 ^ 53 ->
  exists m e, of_Z z szero = S754_finite false m e
              /\ e <= 0 /\ Z.pos m = z * 2 ^ (- e).
Proof.
  intros [Hz0 Hz]. destruct z as [|p|p]; try lia.
  pose proof (digits2_pos_bounds p) as Hdg.
  set (dg := digits2_pos p) in *.
  assert (Hdg53 : Z.pos dg <= 53).
  { destruct (Z.le_gt_cases (Z.pos dg) 53) as [|Hgt]; [assumption|].
    assert (2 ^ 53 <= 2 ^ (Z.pos dg - 1)) by (apply Z.pow_le_mono_r; lia).
    lia. }
  unfold of_Z, binary_normalize, binary_round, shl_align. fold dg.
  assert (Hf : fexp prec emax (Z.pos dg + 0) = Z.pos dg - 53)
    by (unfold fexp, emin, prec, emax; lia).
  rewrite Hf, Z.sub_0_r.
  destruct (Z.pos dg - 53) as [|n|n] eqn:Hn; try lia.
  - exists p, 0. split; [|split; [lia | cbn; lia]].
    apply binary_round_aux_exact; [fold dg|]; lia.
  - destruct (pos_iter_xO p n) as [Hv Hd]. fold dg in Hd.
    exists (Pos.iter xO p n), (Z.neg n). split; [|split; [lia | exact Hv]].
    apply binary_round_aux_exact; [rewrite Hd|]; lia.
Qed.

Lemma IntegerPart_of_Z (z : Z) szero :
  0 < z < 2 ^ 53 -> IntegerPart (of_Z z szero) = z.
Proof.
  intros Hz. destruct (of_Z_exact z szero Hz) as (m & e & -> & He & Hm).
  unfold IntegerPart. rewrite Hm.
  pose proof (pow2_pos (- e) ltac:(lia)) as Hp.
  destruct (0 <=? e) eqn:H0.
  - apply Z.leb_le in H0. replace e with 0 by lia. cbn. lia.
  - apply Z.div_mul. lia.
Qed.

Lemma trip_count_of_Z (z : Z) szero :
  0 < z < 2 ^ 53 -> trip_count (of_Z z szero) = Some (Z.to_nat z).
Proof.
  intros Hz. destruct (of_Z_exact z szero Hz) as (m & e & -> & He & Hm).
  unfold trip_count. rewrite Hm.
  pose proof (pow2_pos (- e) ltac:(lia)) as Hp.
  destruct Hz as [Hz0 Hz].
  destruct (0 <=? e) eqn:H0.
  - apply Z.leb_le in H0. replace e with 0 by lia.
    change (2 ^ (- 0)) with 1. change (2 ^ 0) with 1. rewrite !Z.mul_1_r.
    replace (z <=? 2 ^ 53) with true by (symmetry; apply Z.leb_le; lia).
    reflexivity.
  - replace ((z * 2 ^ (- e) + 2 ^ (- e) - 1) / 2 ^ (- e)) with z
      by (apply Z.div_unique with (2 ^ (- e) - 1); lia).
    replace (z <=? 2 ^ 53) with true by (symmetry; apply Z.leb_le; lia).
    reflexivity.
Qed.

Lemma to_unsigned_long_of_Z (z : Z) szero :
  0 < z < 2 ^ 32 -> to_unsigned_long (Some (of_Z z szero)) = z.
Proof.
  intros Hz. unfold to_unsigned_long. cbn [ToNumber].
  assert (2 ^ 32 < 2 ^ 53) by reflexivity.
  rewrite IntegerPart_of_Z by lia. apply Z.mod_small. lia.
Qed.

(** ** The sizes that [parseInt] produces are integers *)

Lemma shr_fexp_exponent (m e : Z) l : e <= snd (shr_fexp prec emax m e l).
Proof.
  unfold shr_fexp, shr.
  destruct (fexp prec emax (Zdigits2 m + e) - e); cbn [snd]; lia.
Qed.

Lemma binary_round_aux_exponent (sx : bool) (mx ex : Z) lx :
  match binary_round_aux prec emax sx mx ex lx with
  | S754_finite _ _ e => ex <= e
  | _ => True
  end.
Proof.
  unfold binary_round_aux.
  pose proof (shr_fexp_exponent mx ex lx) as H1.
  destruct (shr_fexp prec emax mx ex lx) as [mrs' e']. cbn [snd] in H1.
  set (m2 := round_nearest_even (shr_m mrs') (loc_of_shr_record mrs')).
  pose proof (shr_fexp_exponent m2 e' loc_Exact) as H2.
  destruct (shr_fexp prec emax m2 e' loc_Exact) as [mrs'' e''].
  cbn [snd] in H2.
  destruct (shr_m mrs''); try exact I.
  destruct (e'' <=? emax - prec); [lia | exact I].
Qed.

Lemma of_Z_integral (z : Z) szero : integral (of_Z z szero).
Proof.
  assert (Hp : forall sx p, integral (binary_round prec emax sx p 0)).
  { intros sx p. unfold binary_round, shl_align.
    destruct (fexp prec emax (Z.pos (digits2_pos p) + 0) - 0) as [|n|n] eqn:Hn.
    - pose proof (binary_round_aux_exponent sx (Z.pos p) 0 loc_Exact) as He.
      destruct (binary_round_aux prec emax sx (Z.pos p) 0 loc_Exact);
        cbn; auto.
    - pose proof (binary_round_aux_exponent sx (Z.pos p) 0 loc_Exact) as He.
      destruct (binary_round_aux prec emax sx (Z.pos p) 0 loc_Exact);
        cbn; auto.
    - rewrite Z.sub_0_r in Hn. rewrite Hn.
      destruct (pos_iter_xO p n) as [Hv Hd].
      rewrite binary_round_aux_exact.
      + cbn [integral]. right. change (- Z.neg n) with (Z.pos n).
        rewrite Hv. apply Z.mod_mul. pose proof (pow2_pos (Z.pos n)). lia.
      + rewrite Hd. unfold fexp, emin, prec, emax in Hn. lia.
      + unfold fexp, emin, prec, emax in Hn. lia. }
  unfold of_Z, binary_normalize. destruct z; [exact I | apply Hp | apply Hp].
Qed.

(** For an integer bound, a loop that runs at all runs [bound] times. *)
Lemma trip_count_integral (bound : number) (n : nat) :
  integral bound -> trip_count bound = Some n -> (0 < n)%nat ->
  Z.of_nat n = IntegerPart bound.
Proof.
  unfold integral, trip_count, IntegerPart.
  destruct bound as [s | [|] | | [|] m e]; try (intros _ [= <-]; lia);
    try discriminate.
  intros Hint. destruct (0 <=? e) eqn:He.
  - apply Z.leb_le in He. pose proof (pow2_pos e He).
    case_match; intros [= <-] _. lia.
  - apply Z.leb_gt in He. destruct Hint as [? | Hmod]; [lia|].
    pose proof (pow2_pos (- e) ltac:(lia)) as Hd.
    assert (Hm : Z.pos m = 2 ^ (- e) * (Z.pos m / 2 ^ (- e)))
      by (apply Z.div_exact; lia).
    assert (Hc : (Z.pos m + 2 ^ (- e) - 1) / 2 ^ (- e) = Z.pos m / 2 ^ (- e)).
    { symmetry. apply Z.div_unique with (2 ^ (- e) - 1); lia. }
    rewrite Hc. case_match; intros [= <-] _.
    assert (0 <= Z.pos m / 2 ^ (- e)) by (apply Z.div_pos; lia). lia.
Qed.

(** The number of turns of a loop of [render] is the header integer. *)
Lemma header_trip_count (k : nat) (ascii : jsstring) (n : nat) :
  trip_count (ToNumber (header_token k ascii)) = Some n -> (0 < n)%nat ->
  Z.of_nat n = header_int k ascii.
Proof.
  unfold header_int, header_token.
  destruct (get_tokens_from_ascii ascii !! k) as [t|]; cbn [fmap option_fmap option_map ToNumber].
  - apply trip_count_integral. unfold parseInt.
    destruct (strip_prefix _) as [R s2].
    destruct (digits_prefix R s2); [exact I | apply of_Z_integral].
  - intros [= <-]. lia.
Qed.

(** ** Saturation *)

(** A quotient whose dividend is at least the (exactly represented) integer
    divisor rounds to at least 1. *)
Lemma js_div_ge_one (mx my : positive) (ex ey d : Z) :
  0 < d -> ey <= 0 -> Z.pos my = d * 2 ^ (- ey) -> ge_int (Z.pos mx) ex d ->
  js_div (S754_finite false mx ex) (S754_finite false my ey)
    = S754_infinity false
  \/ exists m e,
       js_div (S754_finite false mx ex) (S754_finite false my ey)
         = S754_finite false m e
       /\ ge_int (Z.pos m) e 1.
Proof.
  intros Hd Hey Hmy Hge.
  unfold js_div, SFdiv, SFdiv_core_binary. cbn [Zdigits2 xorb].
  set (d1 := Z.pos (digits2_pos mx)). set (d2 := Z.pos (digits2_pos my)).
  pose proof (digits2_pos_bounds mx) as Hd1. fold d1 in Hd1.
  pose proof (digits2_pos_bounds my) as Hd2. fold d2 in Hd2.
  set (e' := Z.min (fexp prec emax (d1 + ex - (d2 + ey))) (ex - ey)).
  set (s := ex - ey - e').
  assert (Hs : 0 <= s) by (subst s e'; lia).
  set (m' := match s with
             | 0 => Z.pos mx
             | Z.pos _ => Z.shiftl (Z.pos mx) s
             | Z.neg _ => 0
             end).
  assert (Hm' : m' = Z.pos mx * 2 ^ s).
  { subst m'. destruct s as [|ps|ps] eqn:Es;
      [rewrite Z.pow_0_r; lia | apply Z.shiftl_mul_pow2; lia | lia]. }
  assert (Hq : Z.div_eucl m' (Z.pos my) = (m' / Z.pos my, m' mod Z.pos my)).
  { unfold Z.div, Z.modulo. destruct (Z.div_eucl m' (Z.pos my)). reflexivity. }
  rewrite Hq.
  apply binary_round_aux_lower; [split; [lia | discriminate]|].
  pose proof (pow2_pos s Hs) as Hps.
  unfold ge_int. destruct (0 <=? e') eqn:He'.
  - apply Z.leb_le in He'. pose proof (pow2_pos e' He') as Hpe.
    assert (1 <= m' / Z.pos my); [|nia].
    apply Z.div_le_lower_bound; [lia|]. rewrite Z.mul_1_r, Hm'.
    assert (Hs' : 53 - d1 + d2 <= s)
      by (subst s e'; unfold fexp, emin, prec, emax in *; lia).
    destruct (Z.le_gt_cases 0 (53 - d1 + d2)) as [Ha | Ha].
    + assert (2 ^ (53 - d1 + d2) <= 2 ^ s) by (apply Z.pow_le_mono_r; lia).
      assert (2 ^ d2 <= 2 ^ (d1 - 1) * 2 ^ (53 - d1 + d2)).
      { rewrite <- Z.pow_add_r by lia. apply Z.pow_le_mono_r; lia. }
      pose proof (pow2_pos (d1 - 1) ltac:(lia)). nia.
    + assert (2 ^ d2 <= 2 ^ (d1 - 1)) by (apply Z.pow_le_mono_r; lia). nia.
  - apply Z.leb_gt in He'. rewrite Z.mul_1_l.
    apply Z.div_le_lower_bound; [lia|]. rewrite Hm', Hmy.
    unfold ge_int in Hge. destruct (0 <=? ex) eqn:Hex.
    + apply Z.leb_le in Hex.
      replace s with (ex + (- ey + - e')) by (subst s; lia).
      rewrite !Z.pow_add_r by lia.
      pose proof (pow2_pos (- ey) ltac:(lia)).
      pose proof (pow2_pos (- e') ltac:(lia)). nia.
    + apply Z.leb_gt in Hex.
      assert (Hsplit : 2 ^ (- ey) * 2 ^ (- e') = 2 ^ (- ex) * 2 ^ s).
      { rewrite <- !Z.pow_add_r by lia. f_equal. subst s. lia. }
      nia.
Qed.

Lemma c0xff_eq : c0xff = S754_finite false 8972014882652160 (-45).
Proof. reflexivity. Qed.

Lemma js_mul_c0xff_ge (m : positive) (e : Z) :
  ge_int (Z.pos m) e 1 ->
  js_mul (S754_finite false m e) c0xff = S754_infinity false
  \/ exists m' e',
       js_mul (S754_finite false m e) c0xff = S754_finite false m' e'
       /\ ge_int (Z.pos m') e' 255.
Proof.
  intros Hge. rewrite c0xff_eq. unfold js_mul, SFmul. cbn [xorb].
  apply binary_round_aux_lower; [split; [lia | discriminate]|].
  rewrite Pos2Z.inj_mul.
  change (Z.pos 8972014882652160) with (255 * 2 ^ 45).
  unfold ge_int in *. destruct (0 <=? e + -45) eqn:H1.
  - apply Z.leb_le in H1. pose proof (pow2_pos (e + -45) H1).
    assert (0 < 2 ^ 45) by reflexivity. nia.
  - apply Z.leb_gt in H1. destruct (0 <=? e) eqn:H0.
    + apply Z.leb_le in H0.
      assert (2 ^ (- (e + -45)) <= 2 ^ 45) by (apply Z.pow_le_mono_r; lia).
      pose proof (pow2_pos (- (e + -45)) ltac:(lia)). nia.
    + apply Z.leb_gt in H0.
      replace (- (e + -45)) with (45 + - e) by lia.
      rewrite Z.pow_add_r by lia.
      assert (0 < 2 ^ 45) by reflexivity. nia.
Qed.

Lemma ToUint8Clamp_ge_255 (m : positive) (e : Z) :
  ge_int (Z.pos m) e 255 -> ToUint8Clamp (S754_finite false m e) = 255.
Proof.
  unfold ge_int, ToUint8Clamp. destruct (0 <=? e); intros H.
  - apply Z.min_l. exact H.
  - apply Z.leb_le in H. rewrite H. reflexivity.
Qed.

(** A sample that is at least the declared maximum (an integer between 1
    and 2^53) is stored as 255. *)
Lemma saturates (s d : Z) :
  0 < d < 2 ^ 53 -> d <= s ->
  ToUint8Clamp (js_mul (js_div (of_Z s false) (of_Z d false)) c0xff) = 255.
Proof.
  intros Hd Hs.
  destruct (of_Z_exact d false Hd) as (my & ey & -> & Hey & Hmy).
  assert (HK : 0 < d <= 2 ^ 53) by lia.
  destruct (of_Z_lower s d false HK Hs) as [-> | (mx & ex & -> & Hge)].
  - reflexivity.
  - destruct (js_div_ge_one mx my ex ey d (proj1 Hd) Hey Hmy Hge)
      as [-> | (m & e & -> & Hge1)]; [reflexivity|].
    destruct (js_mul_c0xff_ge m e Hge1) as [-> | (m' & e' & -> & Hge2)];
      [reflexivity|].
    apply ToUint8Clamp_ge_255. exact Hge2.
Qed.

(** ** The clamped store *)

Lemma ToUint8Clamp_range (v : number) : 0 <= ToUint8Clamp v <= 255.
Proof.
  unfold ToUint8Clamp. destruct v as [s | [|] | | [|] m e]; try lia.
  destruct (0 <=? e) eqn:He.
  - apply Z.leb_le in He. pose proof (pow2_pos e He). nia.
  - apply Z.leb_gt in He. pose proof (pow2_pos (- e) ltac:(lia)) as Hd.
    destruct (255 * 2 ^ (- e) <=? Z.pos m) eqn:Hbig; [lia|].
    apply Z.leb_gt in Hbig.
    assert (0 <= Z.pos m / 2 ^ (- e)) by (apply Z.div_pos; lia).
    assert (Z.pos m / 2 ^ (- e) < 255) by (apply Z.div_lt_upper_bound; lia).
    destruct (2 * (Z.pos m mod 2 ^ (- e)) ?= 2 ^ (- e)); try lia.
    destruct (Z.even (Z.pos m / 2 ^ (- e))); lia.
Qed.

(** The conversion rounds to a nearest integer, and to the even one of two
    equally near integers. *)
Lemma ToUint8Clamp_nearest (m : positive) (e : Z) :
  e < 0 -> Z.pos m < 255 * 2 ^ (- e) ->
  let b := ToUint8Clamp (S754_finite false m e) in
  2 * Z.abs (Z.pos m - b * 2 ^ (- e)) <= 2 ^ (- e)
  /\ (2 * Z.abs (Z.pos m - b * 2 ^ (- e)) = 2 ^ (- e) -> Z.even b = true).
Proof.
  intros He Hlt. cbn zeta. unfold ToUint8Clamp.
  replace (0 <=? e) with false by (symmetry; apply Z.leb_gt; lia).
  replace (255 * 2 ^ (- e) <=? Z.pos m) with false
    by (symmetry; apply Z.leb_gt; lia).
  pose proof (pow2_pos (- e) ltac:(lia)) as Hd.
  set (d := 2 ^ (- e)) in *.
  pose proof (Z.div_mod (Z.pos m) d ltac:(lia)) as Hdm.
  pose proof (Z.mod_pos_bound (Z.pos m) d Hd) as Hr.
  set (f := Z.pos m / d) in *. set (r := Z.pos m mod d) in *.
  destruct (2 * r ?= d) eqn:Hc.
  - apply Z.compare_eq in Hc. destruct (Z.even f) eqn:Hev.
    + split; [|intros _; exact Hev]. lia.
    + split; [lia|]. intros _. rewrite Z.even_add, Hev. reflexivity.
  - rewrite Z.compare_lt_iff in Hc. split; lia.
  - rewrite Z.compare_gt_iff in Hc. split; lia.
Qed.




(** ** Missing samples *)

Lemma js_div_NaN (d : number) : js_div NaN d = NaN.
Proof. destruct d; reflexivity. Qed.

Lemma channel_value_missing format depth numbers (p i : nat) :
  supported format -> numbers !! sample_index format p i = None ->
  ToUint8Clamp (channel_value format depth numbers p i) = 0.
Proof.
  intros Hf Hnone. unfold channel_value. rewrite Hnone. cbn [ToNumber].
  destruct Hf as [-> | [-> | ->]]; try reflexivity;
    rewrite js_div_NaN; reflexivity.
Qed.

(** ** The tokenizer *)

Lemma split_app_sep sep a b :
  split sep (a ++ sep :: b) = split sep a ++ split sep b.
Proof.
  induction a as [|c a IH]; cbn [app split].
  - rewrite N.eqb_refl. reflexivity.
  - destruct (N.eqb c sep); rewrite IH; [reflexivity|].
    destruct (split sep a) as [|w ws] eqn:E; [|reflexivity].
    destruct a; cbn in E; repeat case_match; discriminate.
Qed.

Lemma split_nonempty sep s : split sep s <> [].
Proof.
  destruct s as [|c s]; cbn [split]; [discriminate|].
  repeat case_match; discriminate.
Qed.

Lemma split_no_sep sep s w : w ∈ split sep s -> sep ∉ w.
Proof.
  revert w. induction s as [|c s IH]; intros w; cbn [split].
  - intros ->%list_elem_of_singleton. apply not_elem_of_nil.
  - destruct (N.eqb c sep) eqn:Ec.
    + intros [-> | Hin]%elem_of_cons; [apply not_elem_of_nil | auto].
    + apply N.eqb_neq in Ec.
      destruct (split sep s) as [|w0 ws] eqn:E.
      * intros ->%list_elem_of_singleton.
        intros [-> | []%not_elem_of_nil]%elem_of_cons. congruence.
      * intros [-> | Hin]%elem_of_cons.
        -- intros [-> | Hin]%elem_of_cons; [congruence|].
           revert Hin. apply IH. left.
        -- apply IH. right. exact Hin.
Qed.

Lemma skip_dots_subset s c : c ∈ skip_dots s -> c ∈ s.
Proof.
  induction s as [|a s IH]; cbn [skip_dots]; [auto|].
  destruct (is_LineTerminator a); [auto|]. intros H. right. auto.
Qed.

Lemma replace_comment_subset line c : c ∈ replace_comment line -> c ∈ line.
Proof.
  induction line as [|a s IH]; cbn [replace_comment]; [auto|].
  destruct (N.eqb a HASH).
  - intros H. right. apply skip_dots_subset. exact H.
  - intros [-> | H]%elem_of_cons; [left | right; auto].
Qed.

Lemma fields_head_nonempty sep c s :
  sep c = false -> fields sep (c :: s) <> [].
Proof.
  intros Hc. cbn [fields]. rewrite Hc.
  destruct s as [|c' s]; [discriminate|].
  destruct (sep c'); [discriminate|].
  destruct (fields sep (c' :: s)); discriminate.
Qed.

Lemma fields_cons2 sep (x x' : char) s :
  fields sep (x :: x' :: s)
  = if sep x then fields sep (x' :: s)
    else if sep x' then [x] :: fields sep (x' :: s)
    else match fields sep (x' :: s) with
         | w :: ws => (x :: w) :: ws
         | [] => [[x]]
         end.
Proof. reflexivity. Qed.

Lemma fields_app_sep sep (c : char) a b :
  sep c = true -> fields sep (a ++ c :: b) = fields sep a ++ fields sep b.
Proof.
  intros Hc. induction a as [|x a IH].
  - cbn [app fields]. rewrite Hc. reflexivity.
  - destruct a as [|x' a].
    + cbn [app] in *. rewrite fields_cons2, Hc, IH.
      cbn [fields]. destruct (sep x); reflexivity.
    + change ((x :: x' :: a) ++ c :: b) with (x :: x' :: (a ++ c :: b)).
      change ((x' :: a) ++ c :: b) with (x' :: (a ++ c :: b)) in IH.
      rewrite !fields_cons2.
      destruct (sep x) eqn:Hx; [exact IH|].
      destruct (sep x') eqn:Hx'.
      * rewrite IH. reflexivity.
      * rewrite IH.
        pose proof (fields_head_nonempty sep x' a Hx') as Hne.
        destruct (fields sep (x' :: a)); [congruence | reflexivity].
Qed.

Lemma fields_join_lines sep (ls : list jsstring) :
  sep LF = true ->
  fields sep (join [LF] ls) = concat (map (fields sep) ls).
Proof.
  intros HLF. induction ls as [|l ls IH]; [reflexivity|].
  destruct ls as [|l' ls].
  - cbn. rewrite app_nil_r. reflexivity.
  - change (join [LF] (l :: l' :: ls)) with (l ++ LF :: join [LF] (l' :: ls)).
    rewrite (fields_app_sep sep LF) by exact HLF. rewrite IH. reflexivity.
Qed.

Local Abbreviation nonempty := (fun x : jsstring => bool_decide (0 < length x)%nat).

Lemma tokens_join_lines (ls : list jsstring) :
  filter nonempty (split SPACE (join [SPACE] ls))
  = concat (map (fun l => filter nonempty (split SPACE l)) ls).
Proof.
  induction ls as [|l ls IH]; [reflexivity|].
  destruct ls as [|l' ls].
  - cbn [join map concat]. rewrite app_nil_r. reflexivity.
  - change (join [SPACE] (l :: l' :: ls))
      with (l ++ SPACE :: join [SPACE] (l' :: ls)).
    rewrite split_app_sep, filter_app, IH. reflexivity.
Qed.

(** On a line without line feed, the runs between spaces are the non-empty
    pieces of [split]. *)
Lemma fields_split_line (l : jsstring) :
  LF ∉ l ->
  fields space_or_newline l = filter nonempty (split SPACE l).
Proof.
  induction l as [|c l IH]; intros Hno; [reflexivity|].
  assert (Hc : space_or_newline c = N.eqb c SPACE).
  { unfold space_or_newline. destruct (N.eqb c LF) eqn:E.
    - apply N.eqb_eq in E. subst c. exfalso. apply Hno. left.
    - apply orb_false_r. }
  assert (Hl : LF ∉ l) by (intros H; apply Hno; right; exact H).
  specialize (IH Hl).
  cbn [fields split]. rewrite Hc. destruct (N.eqb c SPACE) eqn:Ec.
  - rewrite IH. reflexivity.
  - destruct l as [|c' l].
    + reflexivity.
    + assert (Hc' : space_or_newline c' = N.eqb c' SPACE).
      { unfold space_or_newline. destruct (N.eqb c' LF) eqn:E.
        - apply N.eqb_eq in E. subst c'. exfalso. apply Hl. left.
        - apply orb_false_r. }
      rewrite Hc'. rewrite IH. cbn [split].
      destruct (N.eqb c' SPACE) eqn:Ec'.
      * reflexivity.
      * destruct (split SPACE l) as [|w ws] eqn:E;
          [exfalso; exact (split_nonempty _ _ E)|].
        reflexivity.
Qed.

(** ** parseInt *)

Lemma decimal_digit_radix (c : char) :
  is_decimal_digit c -> radix_digit 10 c = Some (Z.of_N c - 48).
Proof.
  unfold is_decimal_digit, radix_digit, digit_value. intros [H1 H2].
  apply N.leb_le in H1 as H1'. apply N.leb_le in H2 as H2'.
  rewrite H1', H2'. cbn [andb].
  replace (Z.of_N c - 48 <? 10) with true by (symmetry; apply Z.ltb_lt; lia).
  reflexivity.
Qed.

Lemma hex_digit_radix (c : char) :
  is_hex_digit c -> exists d, radix_digit 16 c = Some d.
Proof.
  unfold is_hex_digit, radix_digit, digit_value. intros H.
  destruct ((48 <=? c) && (c <=? 57))%N eqn:E1.
  - apply andb_prop in E1 as [?%N.leb_le ?%N.leb_le].
    replace (Z.of_N c - 48 <? 16) with true by (symmetry; apply Z.ltb_lt; lia).
    eauto.
  - destruct ((97 <=? c) && (c <=? 122))%N eqn:E2.
    + apply andb_prop in E2 as [?%N.leb_le ?%N.leb_le].
      apply andb_false_iff in E1.
      rewrite !N.leb_gt in E1.
      replace (Z.of_N c - 97 + 10 <? 16) with true
        by (symmetry; apply Z.ltb_lt; lia).
      eauto.
    + apply andb_false_iff in E1, E2. rewrite !N.leb_gt in E1, E2.
      replace ((65 <=? c) && (c <=? 90))%N with true
        by (symmetry; apply andb_true_intro; rewrite !N.leb_le; lia).
      replace (Z.of_N c - 65 + 10 <? 16) with true
        by (symmetry; apply Z.ltb_lt; lia).
      eauto.
Qed.

(** A run of digits followed by something that is not a digit is the
    longest digit prefix. *)
Lemma digits_prefix_app (R : Z) (ds rest : jsstring) :
  Forall (fun c => is_Some (radix_digit R c)) ds -> stops R rest ->
  digits_prefix R (ds ++ rest) = digits_prefix R ds.
Proof.
  intros Hds Hrest. induction Hds as [|c ds [d Hc] _ IH].
  - destruct rest as [|c rest]; [reflexivity|].
    cbn in *. rewrite Hrest. reflexivity.
  - cbn [app digits_prefix]. rewrite Hc, IH. reflexivity.
Qed.

Lemma digits_prefix_nonempty (R : Z) (c : char) (ds : jsstring) :
  is_Some (radix_digit R c) -> digits_prefix R (c :: ds) <> [].
Proof. intros [d Hd]. cbn. rewrite Hd. discriminate. Qed.

(** What [parseInt] does once white space and sign are out of the way. *)
Lemma parseInt_unsigned (c : char) (s : jsstring) :
  is_StrWhiteSpaceChar c = false -> N.eqb c PLUS = false ->
  N.eqb c MINUS = false ->
  parseInt (c :: s)
  = let '(R, s2) := strip_prefix (c :: s) in
    match digits_prefix R s2 with
    | [] => NaN
    | ds => of_Z (mathInt R ds) false
    end.
Proof.
  intros Hws Hp Hm. unfold parseInt. cbn [trim_start]. rewrite Hws, Hp, Hm.
  cbn [orb]. destruct (strip_prefix (c :: s)) as [R s2].
  destruct (digits_prefix R s2); reflexivity.
Qed.

Lemma parseInt_decimal (ds rest : jsstring) :
  ds <> [] -> Forall is_decimal_digit ds -> stops 10 rest ->
  hex_prefixed (ds ++ rest) = false ->
  parseInt (ds ++ rest) = of_Z (mathInt 10 (digits_prefix 10 ds)) false.
Proof.
  intros Hne Hds Hrest Hhex. destruct ds as [|c ds]; [congruence|].
  apply Forall_cons in Hds as [Hc Hds].
  assert (Hc' := Hc). destruct Hc' as [Hc1 Hc2].
  change ((c :: ds) ++ rest) with (c :: (ds ++ rest)) in *.
  rewrite parseInt_unsigned.
  - assert (Hsp : strip_prefix (c :: ds ++ rest) = (10, c :: ds ++ rest)).
    { unfold strip_prefix. unfold hex_prefixed in Hhex.
      destruct (ds ++ rest); [reflexivity|]. rewrite Hhex. reflexivity. }
    rewrite Hsp. change (c :: ds ++ rest) with ((c :: ds) ++ rest).
    rewrite digits_prefix_app; [| |exact Hrest].
    + pose proof (digits_prefix_nonempty 10 c ds) as Hn.
      destruct (digits_prefix 10 (c :: ds)); [|reflexivity].
      exfalso. apply Hn; [|reflexivity].
      rewrite decimal_digit_radix by exact Hc. eauto.
    + apply Forall_cons. split.
      * rewrite decimal_digit_radix by exact Hc. eauto.
      * eapply Forall_impl; [exact Hds|]. intros a Ha. cbn beta.
        rewrite decimal_digit_radix by exact Ha. eauto.
  - unfold is_StrWhiteSpaceChar.
    repeat match goal with
    | |- context [N.eqb c ?k] =>
        replace (N.eqb c k) with false by (symmetry; apply N.eqb_neq; lia)
    end.
    replace (c <=? 13)%N with false by (symmetry; apply N.leb_gt; lia).
    replace (8192 <=? c)%N with false by (symmetry; apply N.leb_gt; lia).
    rewrite andb_false_r. reflexivity.
  - apply N.eqb_neq. unfold PLUS. lia.
  - apply N.eqb_neq. unfold MINUS. lia.
Qed.

Lemma parseInt_hex (xc : char) (hs rest : jsstring) :
  xc = 120%N \/ xc = 88%N -> hs <> [] -> Forall is_hex_digit hs ->
  stops 16 rest ->
  parseInt (48%N :: xc :: hs ++ rest)
  = of_Z (mathInt 16 (digits_prefix 16 hs)) false.
Proof.
  intros Hx Hne Hhs Hrest. rewrite parseInt_unsigned by reflexivity.
  assert (Hsp : forall l, strip_prefix (48%N :: xc :: l) = (16, l))
    by (intros l; destruct Hx as [-> | ->]; reflexivity).
  rewrite Hsp. rewrite digits_prefix_app; [| |exact Hrest].
  - destruct hs as [|c hs]; [congruence|].
    apply Forall_cons in Hhs as [Hc _].
    pose proof (digits_prefix_nonempty 16 c hs (hex_digit_radix c Hc)) as Hn.
    destruct (digits_prefix 16 (c :: hs)); [congruence | reflexivity].
  - eapply Forall_impl; [exact Hhs|]. intros a Ha. apply hex_digit_radix.
    exact Ha.
Qed.

Lemma parseInt_hex_alone (xc : char) (rest : jsstring) :
  xc = 120%N \/ xc = 88%N -> stops 16 rest ->
  parseInt (48%N :: xc :: rest) = NaN.
Proof.
  intros Hx Hrest. rewrite parseInt_unsigned by reflexivity.
  assert (Hsp : forall l, strip_prefix (48%N :: xc :: l) = (16, l))
    by (intros l; destruct Hx as [-> | ->]; reflexivity).
  rewrite Hsp. destruct rest as [|c rest]; [reflexivity|].
  cbn in Hrest. cbn [digits_prefix]. rewrite Hrest. reflexivity.
Qed.

(** ** Helpers of the claims *)

Lemma MAGICS_inv (magic : jsstring) (format : NetPBMFormat) :
  MAGICS magic = Some format ->
  magic = lit "P1" \/ magic = lit "P2" \/ magic = lit "P3".
Proof.
  unfold MAGICS.
  repeat (case_match; try discriminate); subst; intros _; vm_compute; auto.
Qed.


Lemma not_a_dimension_zero (v : option number) :
  not_a_dimension v -> to_unsigned_long v = 0.
Proof. intros [-> | [-> | [s ->]]]; reflexivity. Qed.

(** Each field is a non-empty run without separator. *)
Lemma fields_runs sep (s w : jsstring) :
  w ∈ fields sep s -> w <> [] /\ Forall (fun c => sep c = false) w.
Proof.
  revert w. induction s as [|c s IH]; intros w; [intros []%not_elem_of_nil|].
  destruct s as [|c' s].
  - cbn [fields]. destruct (sep c) eqn:Hc; [intros []%not_elem_of_nil|].
    intros ->%list_elem_of_singleton. split; [discriminate|].
    repeat constructor. exact Hc.
  - rewrite fields_cons2. destruct (sep c) eqn:Hc; [apply IH|].
    destruct (sep c') eqn:Hc'.
    + intros [-> | Hin]%elem_of_cons; [|apply IH; exact Hin].
      split; [discriminate|]. repeat constructor. exact Hc.
    + destruct (fields sep (c' :: s)) as [|w0 ws] eqn:E.
      * intros ->%list_elem_of_singleton. split; [discriminate|].
        repeat constructor. exact Hc.
      * intros [-> | Hin]%elem_of_cons.
        -- split; [discriminate|]. constructor; [exact Hc|].
           apply (IH w0). left.
        -- apply IH. right. exact Hin.
Qed.

(** The fields, put end to end, are the text without its separators. *)
Lemma fields_concat sep (s : jsstring) :
  concat (fields sep s) = List.filter (fun c => negb (sep c)) s.
Proof.
  induction s as [|c s IH]; [reflexivity|].
  destruct s as [|c' s].
  - cbn. destruct (sep c); reflexivity.
  - rewrite fields_cons2.
    change (List.filter (fun c => negb (sep c)) (c :: c' :: s))
      with (if negb (sep c)
            then c :: List.filter (fun c => negb (sep c)) (c' :: s)
            else List.filter (fun c => negb (sep c)) (c' :: s)).
    rewrite <- IH. destruct (sep c) eqn:Hc; cbn [negb]; [reflexivity|].
    destruct (sep c') eqn:Hc'; [reflexivity|].
    pose proof (fields_head_nonempty sep c' s Hc') as Hne.
    destruct (fields sep (c' :: s)); [congruence | reflexivity].
Qed.

(** Where no line terminator follows the first [#] of a line, the comment
    is removed to the end of the line. *)
Lemma replace_comment_to_end_of_line (before after : jsstring) :
  HASH ∉ before -> Forall (fun c => is_LineTerminator c = false) after ->
  replace_comment (before ++ HASH :: after) = before.
Proof.
  intros Hno Hafter. induction before as [|c before IH].
  - cbn [app replace_comment]. rewrite N.eqb_refl.
    induction Hafter as [|c after Hc _ IH]; [reflexivity|].
    cbn [skip_dots]. rewrite Hc. exact IH.
  - cbn [app replace_comment].
    destruct (N.eqb c HASH) eqn:Hc.
    + apply N.eqb_eq in Hc. subst c. exfalso. apply Hno. left.
    + f_equal. apply IH. intros H. apply Hno. right. exact H.
Qed.

(** * The claims of the specification *)

(** C9. An input whose first two code units are not "P1", "P2" or "P3"
    (the binary magics P4, P5, P6 included) makes the decoder throw the
    unsupported-format error; no image is produced. *)
Theorem unsupported_magic_is_rejected (can_allocate : Z -> bool)
    (ascii : jsstring) :
  take 2 ascii <> lit "P1" -> take 2 ascii <> lit "P2" ->
  take 2 ascii <> lit "P3" ->
  parse can_allocate ascii
  = Throws (Error (lit "Unsupported NetPBM format: " ++ take 2 ascii)).
Proof.
  intros H1 H2 H3. unfold parse, NetPBMImage_constructor, detect_format.
  destruct (MAGICS (take 2 ascii)) as [f|] eqn:E; [|reflexivity].
  apply MAGICS_inv in E as [E | [E | E]]; congruence.
Qed.

(** The scenario "P9\n1 1\n255\n0\n" of the specification. *)
Lemma unsupported_magic_P9 :
  parse up_to_2GiB magic_P9
  = Throws (Error (lit "Unsupported NetPBM format: P9")).
Proof.
  exact (unsupported_magic_is_rejected up_to_2GiB magic_P9
           ltac:(discriminate) ltac:(discriminate) ltac:(discriminate)).
Defined.



(** C8, as amended. When the header's width and height are positive, every
    pixel of a decoded image, whatever the format, has the alpha byte 255. *)
Theorem alpha_is_opaque (can_allocate : Z -> bool) (ascii : jsstring)
    (img : ImageData) (p : nat) :
  parse can_allocate ascii = Returns img ->
  0 < header_int 0 ascii -> 0 < header_int 1 ascii ->
  Z.of_nat p < width img * height img ->
  data img !! (4 * p + 3)%nat = Some 255.
Proof.
  intros Hp HW HH Hlt. destruct (parse_format _ _ _ Hp) as [format Hf].
  exact (proj1 (parse_pixel can_allocate ascii format img p Hp Hf HW HH Hlt)).
Qed.

(** The last pixel of the commented 2x1 graymap scenario. *)
Lemma alpha_is_opaque_scenario :
  data {| width := 2; height := 1;
          data := [10; 10; 10; 255; 20; 20; 20; 255] |} !! (4 * 1 + 3)%nat
  = Some 255.
Proof.
  refine (alpha_is_opaque up_to_2GiB gray_with_comment _ 1%nat _ _ _ _).
  - vm_compute. reflexivity.
  - vm_compute. reflexivity.
  - vm_compute. reflexivity.
  - vm_compute. reflexivity.
Defined.

(** C8 as stated fails: the width and the height -4294967295 each convert
    to the unsigned long 1, so [new ImageData] makes a 1x1 image, but the
    loop over [y < -4294967295] never runs and the pixel stays transparent
    black. *)
Lemma alpha_not_written_when_size_wraps :
  parse up_to_2GiB gray_size_wraps
  = Returns {| width := 1; height := 1; data := [0; 0; 0; 0] |}
  /\ header_int 0 gray_size_wraps = -4294967295
  /\ header_int 1 gray_size_wraps = -4294967295
  /\ data {| width := 1; height := 1; data := [0; 0; 0; 0] |} !! (4 * 0 + 3)%nat
     = Some 0.
Proof. vm_compute. repeat split; reflexivity. Qed.




(** C2, as amended. In a decoded graymap or pixmap with positive header
    width and height, each channel byte is the Number
    [sample / maxValue * 0xff] converted by the clamped array: for a value
    between 0 and 255 an integer nearest to it, the even one of two equally
    near, not the value truncated. A graymap reads the same sample for the
    three channels of a pixel. *)
Theorem channel_is_rounded_quotient (can_allocate : Z -> bool)
    (ascii : jsstring) (format : NetPBMFormat) (img : ImageData) (p i : nat) :
  parse can_allocate ascii = Returns img ->
  detect_format ascii = Returns format -> format = P2 \/ format = P3 ->
  0 < header_int 0 ascii -> 0 < header_int 1 ascii ->
  Z.of_nat p < width img * height img -> (i < 3)%nat ->
  let v := js_mul
             (js_div (ToNumber (samples format ascii !! sample_index format p i))
                     (ToNumber (header_token 2 ascii)))
             c0xff in
  exists b : Z,
    data img !! (4 * p + i)%nat = Some b
    /\ b = ToUint8Clamp v /\ 0 <= b <= 255
    /\ (forall (m : positive) (e : Z),
          v = S754_finite false m e -> e < 0 -> Z.pos m < 255 * 2 ^ (- e) ->
          2 * Z.abs (Z.pos m - b * 2 ^ (- e)) <= 2 ^ (- e)
          /\ (2 * Z.abs (Z.pos m - b * 2 ^ (- e)) = 2 ^ (- e) ->
              Z.even b = true))
    /\ (format = P2 -> sample_index format p i = p).
Proof.
  intros Hp Hf Hfmt HW HH Hlt Hi v.
  destruct (parse_pixel can_allocate ascii format img p Hp Hf HW HH Hlt)
    as [_ Hrgb].
  exists (ToUint8Clamp v).
  split; [|split; [reflexivity|split; [apply ToUint8Clamp_range|split]]].
  - rewrite (Hrgb i Hi). f_equal. unfold channel_value.
    destruct Hfmt as [-> | ->]; reflexivity.
  - intros m e Hv He Hm. rewrite Hv. exact (ToUint8Clamp_nearest m e He Hm).
  - intros ->. unfold sample_index. cbn [numbersPerPixel].
    rewrite Nat.mod_1_r. lia.
Qed.

(** The sample 1 under the maxValue 2: 127.5 becomes 128. *)
Lemma half_rounds_to_128 :
  exists b : Z, [128; 128; 128; 255] !! (4 * 0 + 0)%nat = Some b /\ b = 128.
Proof.
  destruct (channel_is_rounded_quotient up_to_2GiB gray_half P2
    {| width := 1; height := 1; data := [128; 128; 128; 255] |} 0%nat 0%nat
    ltac:(vm_compute; reflexivity) ltac:(reflexivity)
    ltac:(left; reflexivity) ltac:(vm_compute; reflexivity)
    ltac:(vm_compute; reflexivity) ltac:(vm_compute; reflexivity)
    ltac:(lia)) as (b & Hb & Hv & _).
  exists b. split; [exact Hb|]. rewrite Hv. vm_compute. reflexivity.
Defined.

(** C2 as stated fails: with maxValue 2 the sample 1 is stored as 128,
    where truncation of 1 / 2 * 255 = 127.5 gives 127. *)
Lemma half_is_not_truncated :
  parse up_to_2GiB gray_half
  = Returns {| width := 1; height := 1; data := [128; 128; 128; 255] |}
  /\ header_token 2 gray_half = Some (of_Z 2 false)
  /\ samples P2 gray_half !! 0%nat = Some (of_Z 1 false)
  /\ 1 * 255 / 2 = 127.
Proof. vm_compute. repeat split; reflexivity. Qed.

(** C1, as amended. The number of samples never makes the decoder fail: for
    every supported format and every header with width and height between 1
    and 2^32 - 1 whose buffer can be allocated, the decoder returns an image
    of that size, and each red, green or blue byte whose sample is missing
    is 0. *)
Theorem missing_samples_are_zero (can_allocate : Z -> bool) (ascii : jsstring)
    (format : NetPBMFormat) (W H : Z) :
  detect_format ascii = Returns format ->
  header_token 0 ascii = Some (of_Z W false) ->
  header_token 1 ascii = Some (of_Z H false) ->
  0 < W < 2 ^ 32 -> 0 < H < 2 ^ 32 ->
  4 * W * H <= 2 ^ 53 - 1 -> can_allocate (4 * W * H) = true ->
  exists img : ImageData,
    parse can_allocate ascii = Returns img
    /\ width img = W /\ height img = H
    /\ length (data img) = Z.to_nat (4 * W * H)
    /\ forall p i : nat,
         Z.of_nat p < W * H -> (i < 3)%nat ->
         (length (samples format ascii) <= sample_index format p i)%nat ->
         data img !! (4 * p + i)%nat = Some 0.
Proof.
  intros Hf HW HH HWr HHr Hsz Hal.
  pose proof (detect_format_supported _ _ Hf) as Hs.
  assert (H32 : 2 ^ 32 < 2 ^ 53) by reflexivity.
  assert (HuW : to_unsigned_long (header_token 0 ascii) = W)
    by (rewrite HW; apply to_unsigned_long_of_Z; exact HWr).
  assert (HuH : to_unsigned_long (header_token 1 ascii) = H)
    by (rewrite HH; apply to_unsigned_long_of_Z; exact HHr).
  assert (Hnew : new_ImageData can_allocate (header_token 0 ascii)
                   (header_token 1 ascii)
                 = Returns {| width := W; height := H;
                              data := replicate (Z.to_nat (4 * W * H)) 0 |}).
  { unfold new_ImageData. rewrite HuW, HuH.
    replace (W =? 0) with false by (symmetry; apply Z.eqb_neq; lia).
    replace (H =? 0) with false by (symmetry; apply Z.eqb_neq; lia).
    apply Z.leb_le in Hsz. rewrite Hsz, Hal. reflexivity. }
  rewrite (parse_render _ _ _ Hf).
  pose proof (render_ok can_allocate format
    {| x := header_token 0 ascii; y := header_token 1 ascii |}
    (declared_depth format ascii) (samples format ascii)
    {| width := W; height := H; data := replicate (Z.to_nat (4 * W * H)) 0 |}
    (Z.to_nat H) (Z.to_nat W)) as Hr.
  cbn [x y width height data] in Hr. rewrite Hr; clear Hr.
  - eexists. split; [reflexivity|]. cbn [width height data].
    split; [reflexivity|]. split; [reflexivity|].
    rewrite pixels_length, length_replicate. split; [reflexivity|].
    intros p i Hp Hi Hmiss.
    rewrite pixels_rgb; try assumption.
    + f_equal. apply channel_value_missing; [exact Hs|].
      apply lookup_ge_None. exact Hmiss.
    + destruct HWr as [HW0 _], HHr as [HH0 _]. clear - Hp HW0 HH0. nia.
    + rewrite length_replicate. destruct HWr as [HW0 _], HHr as [HH0 _].
      clear - Hp Hi HW0 HH0. nia.
  - exact Hnew.
  - rewrite HH. cbn [ToNumber]. apply trip_count_of_Z. lia.
  - rewrite HW. cbn [ToNumber]. apply trip_count_of_Z. lia.
Qed.

(** The scenario "P2\n2 1\n255\n10\n", one sample short. *)
Lemma one_sample_short_is_decoded :
  exists img : ImageData,
    parse up_to_2GiB gray_one_sample_short = Returns img
    /\ width img = 2 /\ height img = 1
    /\ length (data img) = Z.to_nat (4 * 2 * 1)
    /\ forall p i : nat,
         Z.of_nat p < 2 * 1 -> (i < 3)%nat ->
         (length (samples P2 gray_one_sample_short) <= sample_index P2 p i)%nat ->
         data img !! (4 * p + i)%nat = Some 0.
Proof.
  refine (missing_samples_are_zero up_to_2GiB gray_one_sample_short P2 2 1
            _ _ _ _ _ _ _).
  - reflexivity.
  - vm_compute. reflexivity.
  - vm_compute. reflexivity.
  - split; [lia | reflexivity].
  - split; [lia | reflexivity].
  - vm_compute. discriminate.
  - reflexivity.
Defined.

(** C1 as stated fails: with one sample for two pixels the decoder returns
    an image; the second pixel is black. *)
Lemma one_sample_short_returns_an_image :
  parse up_to_2GiB gray_one_sample_short
  = Returns {| width := 2; height := 1;
               data := [10; 10; 10; 255; 0; 0; 0; 255] |}
  /\ length (samples P2 gray_one_sample_short) = 1%nat
  /\ (1 < 2 * 1 * numbersPerPixel P2)%nat.
Proof. vm_compute. repeat split; lia. Qed.

(** C3, as amended. For an input with a supported magic whose width or
    height token is absent, does not parse (NaN) or parses to zero, the
    decoder fails: [new ImageData] throws IndexSizeError and no image is
    built. (The maxValue is not validated.) *)
Theorem unusable_dimension_is_rejected (can_allocate : Z -> bool)
    (ascii : jsstring) (format : NetPBMFormat) :
  detect_format ascii = Returns format ->
  not_a_dimension (header_token 0 ascii)
  \/ not_a_dimension (header_token 1 ascii) ->
  parse can_allocate ascii = Throws IndexSizeError.
Proof.
  intros Hf Hbad. rewrite (parse_render _ _ _ Hf). unfold render. cbn [x y].
  rewrite new_ImageData_zero; [reflexivity|].
  destruct Hbad as [Hbad | Hbad]; [left | right];
    apply not_a_dimension_zero; exact Hbad.
Qed.

(** A graymap whose width token is "0". *)
Lemma zero_width_is_rejected :
  parse up_to_2GiB gray_width_zero = Throws IndexSizeError.
Proof.
  refine (unusable_dimension_is_rejected up_to_2GiB gray_width_zero P2 _ _).
  - reflexivity.
  - left. right. right. exists false. vm_compute. reflexivity.
Defined.

(** C3 as stated fails: the maxValue token "0" parses to 0, and the decoder
    returns an image. *)
Lemma zero_maxvalue_returns_an_image :
  parse up_to_2GiB gray_maxvalue_zero
  = Returns {| width := 1; height := 1; data := [255; 255; 255; 255] |}
  /\ header_token 2 gray_maxvalue_zero = Some (of_Z 0 false).
Proof. vm_compute. split; reflexivity. Qed.

(** C6, as amended. The tokens are exactly the maximal non-empty runs of the
    comment-free text that are delimited by spaces and line feeds, in their
    order; the other white space (tab, carriage return, ...) does not
    separate tokens. *)
Theorem tokens_are_space_newline_fields (ascii : jsstring) :
  get_tokens_from_ascii ascii
  = fields space_or_newline (comment_free_text ascii).
Proof.
  unfold get_tokens_from_ascii, comment_free_text.
  rewrite tokens_join_lines, fields_join_lines by reflexivity.
  f_equal. apply map_ext_in. intros l Hl. symmetry.
  apply fields_split_line.
  apply in_map_iff in Hl as (l0 & <- & Hl0). intros Hin.
  apply replace_comment_subset in Hin.
  apply list_elem_of_In in Hl0. exact (split_no_sep LF _ _ Hl0 Hin).
Qed.

(** C6 as stated fails: a tab does not separate the tokens "2" and "1". *)
Lemma tab_does_not_separate :
  get_tokens_from_ascii gray_tab_separated
  = [lit ("2" ++ tab ++ "1"); lit "255"; lit "10"; lit "20"]
  /\ fields is_StrWhiteSpaceChar (comment_free_text gray_tab_separated)
     = [lit "2"; lit "1"; lit "255"; lit "10"; lit "20"].
Proof. vm_compute. split; reflexivity. Qed.

(** C7. The commented scenario of the specification decodes as specified;
    but a carriage return ends the match of the comment pattern, so what
    follows it on the comment's line stays in the text: with "#see\rnote"
    the token "\rnote" becomes the width, which parses to NaN, and the
    decoder throws; with "\r\n" after the comment the carriage return alone
    is left as the first token, to the same effect. *)
Theorem comment_ends_at_carriage_return :
  get_tokens_from_ascii gray_with_comment
  = [lit "2"; lit "1"; lit "255"; lit "10"; lit "20"]
  /\ parse up_to_2GiB gray_with_comment
     = Returns {| width := 2; height := 1;
                  data := [10; 10; 10; 255; 20; 20; 20; 255] |}
  /\ get_tokens_from_ascii gray_comment_with_cr
     = [CR :: lit "note"; lit "2"; lit "1"; lit "255"; lit "10"; lit "20"]
  /\ parse up_to_2GiB gray_comment_with_cr = Throws IndexSizeError
  /\ get_tokens_from_ascii gray_comment_then_crlf
     = [[CR]; lit "2"; lit "1"; lit "255"; lit "10"; lit "20"]
  /\ parse up_to_2GiB gray_comment_then_crlf = Throws IndexSizeError.
Proof. vm_compute. repeat split; reflexivity. Qed.

(** C10, as amended. [parseInt] takes the longest digit prefix and detects
    the radix: decimal digits followed by anything that is not one give the
    value of the digits ("2abc" gives 2); "0x" or "0X" followed by at least
    one hexadecimal digit gives the hexadecimal value ("0x10" gives 16);
    neither gives NaN. "0x" or "0X" followed by no hexadecimal digit gives
    NaN. *)
Theorem parseInt_prefix_and_hex :
  parseInt (lit "2abc") = of_Z 2 false
  /\ parseInt (lit "0x10") = of_Z 16 false
  /\ (forall ds rest : jsstring,
        ds <> [] -> Forall is_decimal_digit ds -> stops 10 rest ->
        hex_prefixed (ds ++ rest) = false ->
        parseInt (ds ++ rest) = of_Z (mathInt 10 (digits_prefix 10 ds)) false
        /\ parseInt (ds ++ rest) <> NaN)
  /\ (forall (xc : char) (hs rest : jsstring),
        xc = 120%N \/ xc = 88%N ->
        hs <> [] -> Forall is_hex_digit hs -> stops 16 rest ->
        parseInt (48%N :: xc :: hs ++ rest)
        = of_Z (mathInt 16 (digits_prefix 16 hs)) false
        /\ parseInt (48%N :: xc :: hs ++ rest) <> NaN)
  /\ (forall (xc : char) (rest : jsstring),
        xc = 120%N \/ xc = 88%N -> stops 16 rest ->
        parseInt (48%N :: xc :: rest) = NaN).
Proof.
  split; [reflexivity|]. split; [reflexivity|]. split; [|split].
  - intros ds rest Hne Hds Hrest Hhex.
    rewrite (parseInt_decimal ds rest Hne Hds Hrest Hhex).
    split; [reflexivity | apply of_Z_not_NaN].
  - intros xc hs rest Hx Hne Hhs Hrest.
    rewrite (parseInt_hex xc hs rest Hx Hne Hhs Hrest).
    split; [reflexivity | apply of_Z_not_NaN].
  - intros xc rest Hx Hrest. exact (parseInt_hex_alone xc rest Hx Hrest).
Qed.

(** The token "42px". *)
Lemma parseInt_42px :
  parseInt (lit "42" ++ lit "px") = of_Z 42 false
  /\ parseInt (lit "42" ++ lit "px") <> NaN.
Proof.
  refine (proj1 (proj2 (proj2 parseInt_prefix_and_hex))
            (lit "42") (lit "px") _ _ _ _).
  - discriminate.
  - repeat constructor; vm_compute; discriminate.
  - reflexivity.
  - reflexivity.
Defined.

(** C10 as stated fails: the token "0x" begins with "0x" and parses to NaN;
    as a width it makes the decoder throw. *)
Lemma hex_prefix_alone_is_NaN :
  parseInt (lit "0x") = NaN
  /\ parseInt (lit "0xg") = NaN
  /\ parse up_to_2GiB gray_hex_prefix_only = Throws IndexSizeError.
Proof. vm_compute. repeat split; reflexivity. Qed.

(** * A further property: identity normalization *)

Lemma quotient_by_255_is_identity (s : Z) :
  0 <= s <= 255 ->
  ToUint8Clamp (js_mul (js_div (of_Z s false) (of_Z 255 false)) c0xff) = s.
Proof.
  intros Hs.
  assert (Hall : forallb
            (fun s => ToUint8Clamp
                        (js_mul (js_div (of_Z s false) (of_Z 255 false)) c0xff)
                      =? s)
            (seqZ 0 256) = true) by (vm_compute; reflexivity).
  rewrite forallb_forall in Hall. apply Z.eqb_eq, Hall.
  apply list_elem_of_In, elem_of_seqZ. lia.
Qed.

(** With the maxValue 255, each channel byte of a decoded graymap with
    positive header width and height equals its sample (an integer between
    0 and 255). *)
Theorem gray_255_is_identity (can_allocate : Z -> bool) (ascii : jsstring)
    (img : ImageData) (p i : nat) (s : Z) :
  parse can_allocate ascii = Returns img ->
  detect_format ascii = Returns P2 ->
  0 < header_int 0 ascii -> 0 < header_int 1 ascii ->
  Z.of_nat p < width img * height img -> (i < 3)%nat ->
  header_token 2 ascii = Some (of_Z 255 false) ->
  samples P2 ascii !! p = Some (of_Z s false) -> 0 <= s <= 255 ->
  data img !! (4 * p + i)%nat = Some s.
Proof.
  intros Hp Hf HW HH Hlt Hi Hd Hs Hr.
  destruct (parse_pixel can_allocate ascii P2 img p Hp Hf HW HH Hlt)
    as [_ Hrgb].
  rewrite (Hrgb i Hi). f_equal. unfold channel_value, sample_index.
  cbn [numbersPerPixel declared_depth]. rewrite Nat.mod_1_r, Hd.
  replace (1 * p + 0)%nat with p by lia. rewrite Hs. cbn [ToNumber].
  apply quotient_by_255_is_identity. exact Hr.
Qed.

(** The second sample of the commented 2x1 graymap scenario. *)
Lemma gray_255_is_identity_scenario :
  data {| width := 2; height := 1;
          data := [10; 10; 10; 255; 20; 20; 20; 255] |} !! (4 * 1 + 2)%nat
  = Some 20.
Proof.
  refine (gray_255_is_identity up_to_2GiB gray_with_comment _ 1%nat 2%nat 20
            _ _ _ _ _ _ _ _ _).
  - vm_compute. reflexivity.
  - reflexivity.
  - vm_compute. reflexivity.
  - vm_compute. reflexivity.
  - vm_compute. reflexivity.
  - lia.
  - vm_compute. reflexivity.
  - vm_compute. reflexivity.
  - lia.
Defined.

(** * A further property: a bitmap is black and white *)

Lemma parseInt_single (c : char) : is_digit_or_NaN (parseInt [c]).
Proof.
  unfold is_digit_or_NaN, parseInt. cbn [trim_start].
  destruct (is_StrWhiteSpaceChar c); [left; reflexivity|].
  destruct (N.eqb c PLUS); [left; reflexivity|].
  destruct (N.eqb c MINUS); [left; reflexivity|].
  cbn [orb strip_prefix digits_prefix].
  unfold radix_digit, digit_value.
  destruct ((48 <=? c) && (c <=? 57))%N eqn:E1.
  - apply andb_prop in E1 as [?%N.leb_le ?%N.leb_le].
    replace (Z.of_N c - 48 <? 10) with true by (symmetry; apply Z.ltb_lt; lia).
    right. exists (Z.of_N c - 48). split; [lia|].
    unfold mathInt. cbn [fold_left]. f_equal.
  - destruct ((97 <=? c) && (c <=? 122))%N eqn:E2.
    + apply andb_prop in E2 as [?%N.leb_le ?%N.leb_le].
      replace (Z.of_N c - 97 + 10 <? 10) with false
        by (symmetry; apply Z.ltb_ge; lia).
      left. reflexivity.
    + destruct ((65 <=? c) && (c <=? 90))%N eqn:E3; [|left; reflexivity].
      apply andb_prop in E3 as [?%N.leb_le ?%N.leb_le].
      replace (Z.of_N c - 65 + 10 <? 10) with false
        by (symmetry; apply Z.ltb_ge; lia).
      left. reflexivity.
Qed.

Lemma split_chars_single (s : jsstring) :
  Forall (fun w => exists c, w = [c]) (split_chars s).
Proof.
  unfold split_chars. apply Forall_forall. intros w Hw.
  apply list_elem_of_fmap in Hw as (c & -> & _). exists c. reflexivity.
Qed.

Lemma bitmap_samples (ascii : jsstring) :
  Forall is_digit_or_NaN (samples P1 ascii).
Proof.
  unfold samples, process_ascii_P1.
  set (tokens := get_tokens_from_ascii ascii).
  set (numbers := map parseInt (split_chars (join [] (drop 2 tokens)))).
  assert (Hn : Forall is_digit_or_NaN numbers).
  { subst numbers. apply Forall_forall. intros v Hv.
    apply list_elem_of_fmap in Hv as (w & -> & Hw).
    pose proof (split_chars_single (join [] (drop 2 tokens))) as Hs.
    rewrite Forall_forall in Hs. destruct (Hs w Hw) as [c ->].
    apply parseInt_single. }
  clearbody numbers.
  destruct tokens as [|t0 [|t1 tokens]]; cbn [take map app drop];
    try apply Forall_drop; exact Hn.
Qed.

Lemma bitmap_value (v : option number) :
  (forall n, v = Some n -> is_digit_or_NaN n) ->
  is_black_or_white (ToUint8Clamp (js_sub c0xff (js_mul (ToNumber v) c0xff))).
Proof.
  intros Hv. destruct v as [n|]; [|left; reflexivity].
  destruct (Hv n eq_refl) as [-> | (k & Hk & ->)]; [left; reflexivity|].
  cbn [ToNumber].
  assert (Hall : forallb
            (fun k => let b := ToUint8Clamp
                                 (js_sub c0xff (js_mul (of_Z k false) c0xff)) in
                      (b =? 0) || (b =? 255))
            (seqZ 0 10) = true) by (vm_compute; reflexivity).
  rewrite forallb_forall in Hall.
  specialize (Hall k). cbv zeta in Hall.
  apply orb_prop in Hall as [H%Z.eqb_eq | H%Z.eqb_eq]; [left | right | ]; auto.
  apply list_elem_of_In, elem_of_seqZ. lia.
Qed.

Lemma store_black_or_white d i v :
  is_black_or_white (ToUint8Clamp v) ->
  Forall is_black_or_white d -> Forall is_black_or_white (store d i v).
Proof. intros Hv H. unfold store. apply Forall_insert; assumption. Qed.

Lemma render_pixel_black_or_white numbers p d :
  Forall is_digit_or_NaN numbers ->
  Forall is_black_or_white d ->
  Forall is_black_or_white (render_pixel P1 None numbers p d).
Proof.
  intros Hn H. unfold render_pixel.
  assert (Hv : is_black_or_white
                 (ToUint8Clamp
                    (js_sub c0xff
                       (js_mul (ToNumber (numbers !! (numbersPerPixel P1 * p)%nat))
                          c0xff)))).
  { apply bitmap_value. intros n Hl. rewrite Forall_forall in Hn.
    apply Hn. eapply list_elem_of_lookup_2. exact Hl. }
  apply store_black_or_white; [right; reflexivity|].
  cbn [for_loop seq fold_left].
  repeat (apply store_black_or_white; [exact Hv|]). exact H.
Qed.

Lemma render_pixels_black_or_white numbers n d :
  Forall is_digit_or_NaN numbers ->
  Forall is_black_or_white d ->
  Forall is_black_or_white (render_pixels P1 None numbers n d).
Proof.
  intros Hn H. induction n as [|n IH]; [exact H|].
  rewrite pixels_S. apply render_pixel_black_or_white; assumption.
Qed.

(** Every byte of every decoded bitmap is 0 or 255, whatever the header and
    the sample characters are. *)
Theorem bitmap_is_black_and_white (can_allocate : Z -> bool)
    (ascii : jsstring) (img : ImageData) :
  parse can_allocate ascii = Returns img ->
  detect_format ascii = Returns P1 ->
  Forall is_black_or_white (data img).
Proof.
  intros Hp Hf. rewrite (parse_render _ _ _ Hf) in Hp.
  apply render_inv in Hp as (img0 & ny & nx & Hnew & _ & _ & _ & _ & Hd).
  apply new_ImageData_inv in Hnew as (_ & _ & _ & _ & Hd0).
  rewrite Hd, Hd0.
  apply render_pixels_black_or_white; [apply bitmap_samples|].
  apply Forall_replicate. left. reflexivity.
Qed.

(** A bitmap whose sample characters are not all bits. *)
Lemma bitmap_is_black_and_white_scenario :
  Forall is_black_or_white [255; 255; 255; 255; 0; 0; 0; 255; 0; 0; 0; 255].
Proof.
  refine (bitmap_is_black_and_white up_to_2GiB bitmap_with_stray_characters
            {| width := 3; height := 1;
               data := [255; 255; 255; 255; 0; 0; 0; 255; 0; 0; 0; 255] |} _ _).
  - vm_compute. reflexivity.
  - reflexivity.
Defined.

(** * Further properties of the decoder *)

(** ** The decoder as a function of the magic and the tokens *)

Lemma for_loop_ext {S : Type} (n : nat) (f g : nat -> S -> S) (s : S) :
  (forall i s, (i < n)%nat -> f i s = g i s) ->
  for_loop n f s = for_loop n g s.
Proof.
  intros H. induction n as [|n IH]; [reflexivity|].
  rewrite !for_loop_S, IH by (intros; apply H; lia). apply H. lia.
Qed.

Lemma parse_tokens (can_allocate : Z -> bool) (a b : jsstring) :
  take 2 a = take 2 b ->
  get_tokens_from_ascii a = get_tokens_from_ascii b ->
  parse can_allocate a = parse can_allocate b.
Proof.
  intros Hm Ht.
  unfold parse, NetPBMImage_constructor, detect_format, process_ascii,
    process_ascii_P1.
  rewrite Hm, Ht. reflexivity.
Qed.

(** The pixel body reads the samples only at the pixel's own indices. *)
Lemma render_pixel_ext format depth (numbers numbers' : list number) p d :
  (forall i : nat, (i < 3)%nat ->
     numbers !! sample_index format p i = numbers' !! sample_index format p i) ->
  render_pixel format depth numbers p d = render_pixel format depth numbers' p d.
Proof.
  intros H. pose proof (H 0%nat ltac:(lia)) as H0.
  pose proof (H 1%nat ltac:(lia)) as H1. pose proof (H 2%nat ltac:(lia)) as H2.
  unfold render_pixel, sample_index in *.
  destruct format; cbn [for_loop seq fold_left numbersPerPixel] in *;
    rewrite ?H0, ?H1, ?H2; reflexivity.
Qed.

Lemma render_pixels_ext format depth (numbers numbers' : list number) n d :
  (forall p i : nat, (p < n)%nat -> (i < 3)%nat ->
     numbers !! sample_index format p i = numbers' !! sample_index format p i) ->
  render_pixels format depth numbers n d
  = render_pixels format depth numbers' n d.
Proof.
  intros H. unfold render_pixels. apply for_loop_ext.
  intros p s Hp. apply render_pixel_ext. intros i Hi. apply H; assumption.
Qed.

(** [render] with two sample lists that agree inside the grid. *)
Lemma render_ext (can_allocate : Z -> bool) format image_size depth
    (numbers numbers' : list number) :
  (forall (ny nx p i : nat),
     trip_count (ToNumber (y image_size)) = Some ny ->
     trip_count (ToNumber (x image_size)) = Some nx ->
     (p < ny * nx)%nat -> (i < 3)%nat ->
     numbers !! sample_index format p i = numbers' !! sample_index format p i) ->
  render can_allocate format image_size depth numbers
  = render can_allocate format image_size depth numbers'.
Proof.
  intros H. unfold render.
  destruct (new_ImageData can_allocate (x image_size) (y image_size))
    as [img0 | e |]; cbn [mbind outcome_bind]; try reflexivity.
  destruct (trip_count (ToNumber (y image_size))) as [[|ny] |] eqn:Hy;
    try reflexivity.
  destruct (trip_count (ToNumber (x image_size))) as [nx |] eqn:Hx;
    try reflexivity.
  do 2 f_equal. rewrite !for_loop_nested.
  apply (render_pixels_ext format depth numbers numbers' (S ny * nx)).
  intros p i Hp Hi. apply (H (S ny) nx); auto.
Qed.

(** ** The shape of the output *)

(** A decoded image has the header's width and height, reduced modulo
    2^32 and not zero, and its buffer holds four bytes for each pixel. *)
Theorem decoded_image_shape (can_allocate : Z -> bool) (ascii : jsstring)
    (img : ImageData) :
  parse can_allocate ascii = Returns img ->
  width img = header_int 0 ascii mod 2 ^ 32
  /\ height img = header_int 1 ascii mod 2 ^ 32
  /\ 0 < width img /\ 0 < height img
  /\ Z.of_nat (length (data img)) = 4 * width img * height img.
Proof.
  intros Hp.
  destruct (parse_shape can_allocate ascii img Hp) as (Hw & Hh & Hwp & Hhp & Hl).
  repeat split; try assumption. rewrite Hl. lia.
Qed.

Lemma decoded_image_shape_2x2 :
  2 = header_int 0 bitmap_2x2 mod 2 ^ 32
  /\ 2 = header_int 1 bitmap_2x2 mod 2 ^ 32
  /\ 0 < 2 /\ 0 < 2
  /\ Z.of_nat 16 = 4 * 2 * 2.
Proof.
  refine (decoded_image_shape up_to_2GiB bitmap_2x2
            {| width := 2; height := 2;
               data := [255; 255; 255; 255; 0; 0; 0; 255;
                        0; 0; 0; 255; 255; 255; 255; 255] |} _).
  vm_compute. reflexivity.
Defined.

(** ** Samples beyond the grid *)

(** Two inputs of the same format with the same header numbers whose
    sample lists agree on the samples of the header's grid (width * height
    pixels) decode alike: what follows those samples is not looked at. *)
Theorem samples_after_the_grid_are_ignored (can_allocate : Z -> bool)
    (a b : jsstring) (format : NetPBMFormat) :
  detect_format a = Returns format -> detect_format b = Returns format ->
  header_token 0 b = header_token 0 a -> header_token 1 b = header_token 1 a ->
  declared_depth format b = declared_depth format a ->
  take (grid_samples format a) (samples format b)
  = take (grid_samples format a) (samples format a) ->
  parse can_allocate b = parse can_allocate a.
Proof.
  intros Ha Hb H0 H1 Hd Hs.
  rewrite (parse_render _ _ _ Ha), (parse_render _ _ _ Hb), H0, H1, Hd.
  apply render_ext. cbn [x y]. intros ny nx p i Hy Hx Hp Hi.
  assert (Hny : (0 < ny)%nat) by (destruct ny; [cbn in Hp|]; lia).
  assert (Hnx : (0 < nx)%nat) by (destruct nx; lia).
  apply header_trip_count in Hy, Hx; try assumption.
  assert (Hk : (sample_index format p i < grid_samples format a)%nat).
  { unfold grid_samples. rewrite <- Hy, <- Hx, !Nat2Z.id.
    pose proof (detect_format_supported _ _ Ha) as [-> | [-> | ->]];
      unfold sample_index; cbn [numbersPerPixel].
    - lia.
    - rewrite Nat.mod_1_r. lia.
    - pose proof (Nat.mod_upper_bound i 3 ltac:(lia)). lia. }
  rewrite <- (lookup_take_lt (samples format b) _ _ Hk),
    <- (lookup_take_lt (samples format a) _ _ Hk), Hs.
  reflexivity.
Qed.

Lemma samples_after_the_grid_are_ignored_2x1 :
  parse up_to_2GiB gray_two_pixels_and_more = parse up_to_2GiB gray_two_pixels.
Proof.
  refine (samples_after_the_grid_are_ignored up_to_2GiB gray_two_pixels
            gray_two_pixels_and_more P2 _ _ _ _ _ _);
    vm_compute; reflexivity.
Defined.

(** ** Comments *)

Lemma split_line sep (s : jsstring) : sep ∉ s -> split sep s = [s].
Proof.
  induction s as [|c s IH]; intros Hno; [reflexivity|].
  cbn [split]. destruct (N.eqb c sep) eqn:Ec.
  - apply N.eqb_eq in Ec. subst c. exfalso. apply Hno. left.
  - rewrite IH; [reflexivity|]. intros H. apply Hno. right. exact H.
Qed.

Lemma replace_comment_none (l : jsstring) : HASH ∉ l -> replace_comment l = l.
Proof.
  induction l as [|c l IH]; intros Hno; [reflexivity|].
  cbn [replace_comment]. destruct (N.eqb c HASH) eqn:Ec.
  - apply N.eqb_eq in Ec. subst c. exfalso. apply Hno. left.
  - f_equal. apply IH. intros H. apply Hno. right. exact H.
Qed.

Lemma comment_text_no_LF (c : jsstring) : comment_text c -> LF ∉ c.
Proof.
  intros Hc Hin. unfold comment_text in Hc. rewrite Forall_forall in Hc.
  specialize (Hc LF Hin). discriminate.
Qed.

(** The lines of a text around one of its lines. *)
Lemma split_around_line (before l after : jsstring) :
  line_start before -> LF ∉ l -> line_end after ->
  exists ls1 ls2,
    forall l' : jsstring, LF ∉ l' ->
      split LF (before ++ l' ++ after) = ls1 ++ [l'] ++ ls2.
Proof.
  intros Hb Hl Ha.
  assert (Hright : exists ls2, forall l' : jsstring, LF ∉ l' ->
            split LF (l' ++ after) = [l'] ++ ls2).
  { destruct Ha as [-> | [a ->]].
    - exists []. intros l' Hl'. rewrite app_nil_r. apply split_line. exact Hl'.
    - exists (split LF a). intros l' Hl'.
      rewrite split_app_sep, split_line by exact Hl'. reflexivity. }
  destruct Hright as [ls2 Hright].
  destruct Hb as [-> | [b ->]].
  - exists [], ls2. intros l' Hl'. cbn [app]. apply Hright. exact Hl'.
  - exists (split LF b), ls2. intros l' Hl'.
    rewrite <- app_assoc. cbn [app].
    rewrite split_app_sep, Hright by exact Hl'. reflexivity.
Qed.

(** A comment, from the first [#] of a line to the end of that line, does
    not reach the tokens, and the input decodes as it does without the
    comment, provided the comment holds no carriage return, line separator
    or paragraph separator. *)
Theorem comment_is_removed (can_allocate : Z -> bool)
    (magic before l c after : jsstring) :
  length magic = 2%nat ->
  line_start before -> HASH ∉ l -> LF ∉ l -> comment_text c -> line_end after ->
  get_tokens_from_ascii (magic ++ before ++ (l ++ HASH :: c) ++ after)
  = get_tokens_from_ascii (magic ++ before ++ l ++ after)
  /\ parse can_allocate (magic ++ before ++ (l ++ HASH :: c) ++ after)
     = parse can_allocate (magic ++ before ++ l ++ after).
Proof.
  intros Hm Hb Hh Hl Hc Ha.
  assert (Ht : get_tokens_from_ascii (magic ++ before ++ (l ++ HASH :: c) ++ after)
               = get_tokens_from_ascii (magic ++ before ++ l ++ after)).
  { unfold get_tokens_from_ascii.
    rewrite !drop_app_length' by (symmetry; exact Hm).
    destruct (split_around_line before l after Hb Hl Ha) as (ls1 & ls2 & Hs).
    rewrite (Hs l Hl), (Hs (l ++ HASH :: c)).
    - rewrite !map_app. cbn [map].
      rewrite (replace_comment_to_end_of_line l c Hh Hc),
        (replace_comment_none l Hh).
      reflexivity.
    - intros [Hin | Hin]%elem_of_app; [exact (Hl Hin)|].
      apply elem_of_cons in Hin as [Heq | Hin]; [discriminate|].
      exact (comment_text_no_LF c Hc Hin). }
  split; [exact Ht|].
  apply parse_tokens; [|exact Ht].
  rewrite !take_app_length' by (symmetry; exact Hm). reflexivity.
Qed.

Lemma comment_is_removed_after_the_sizes :
  get_tokens_from_ascii gray_commented_lines
  = get_tokens_from_ascii gray_two_pixels
  /\ parse up_to_2GiB gray_commented_lines = parse up_to_2GiB gray_two_pixels.
Proof.
  refine (comment_is_removed up_to_2GiB (lit "P2") (lit nl) (lit "2 1 ")
            (lit " width and height")
            (lit (nl ++ "255" ++ nl ++ "10 20" ++ nl)) _ _ _ _ _ _).
  - reflexivity.
  - right. exists []. reflexivity.
  - intros H. repeat (apply elem_of_cons in H as [H | H]; [discriminate|]).
    exact (not_elem_of_nil _ H).
  - intros H. repeat (apply elem_of_cons in H as [H | H]; [discriminate|]).
    exact (not_elem_of_nil _ H).
  - repeat constructor.
  - right. eexists. reflexivity.
Defined.

(** ** Bitmap samples without spaces *)

Lemma join_empty (ws : list jsstring) : join [] ws = concat ws.
Proof.
  induction ws as [|w ws IH]; [reflexivity|].
  destruct ws as [|w' ws].
  - cbn. rewrite app_nil_r. reflexivity.
  - change (join [] (w :: w' :: ws)) with (w ++ [] ++ join [] (w' :: ws)).
    rewrite IH. reflexivity.
Qed.

(** In a bitmap the sample digits need no white space between them: two
    bitmaps with the same width and height tokens whose remaining tokens,
    put end to end, are the same text decode alike. *)
Theorem bitmap_digits_need_no_spaces (can_allocate : Z -> bool)
    (a b tw th : jsstring) (ta tb : list jsstring) :
  detect_format a = Returns P1 -> detect_format b = Returns P1 ->
  get_tokens_from_ascii a = tw :: th :: ta ->
  get_tokens_from_ascii b = tw :: th :: tb ->
  concat ta = concat tb ->
  parse can_allocate a = parse can_allocate b.
Proof.
  intros Ha Hb Hta Htb Hc.
  unfold parse, NetPBMImage_constructor. rewrite Ha, Hb.
  cbn [mbind outcome_bind].
  assert (Hp : process_ascii_P1 a = process_ascii_P1 b).
  { unfold process_ascii_P1. rewrite Hta, Htb.
    change (drop 2 (tw :: th :: ta)) with ta.
    change (drop 2 (tw :: th :: tb)) with tb.
    rewrite !join_empty, Hc. reflexivity. }
  rewrite Hp. reflexivity.
Qed.

Lemma bitmap_digits_need_no_spaces_2x2 :
  parse up_to_2GiB bitmap_2x2 = parse up_to_2GiB bitmap_2x2_packed.
Proof.
  refine (bitmap_digits_need_no_spaces up_to_2GiB bitmap_2x2 bitmap_2x2_packed
            (lit "2") (lit "2") [lit "0"; lit "1"; lit "1"; lit "0"]
            [lit "0110"] _ _ _ _ _);
    vm_compute; reflexivity.
Defined.

(** ** The lower end of the channel range *)

Lemma binary_round_aux_sign (sx : bool) (mx ex : Z) lx :
  match binary_round_aux prec emax sx mx ex lx with
  | S754_nan => True
  | S754_zero s | S754_infinity s | S754_finite s _ _ => s = sx
  end.
Proof.
  unfold binary_round_aux.
  destruct (shr_fexp prec emax mx ex lx) as [mrs' e'].
  destruct (shr_fexp prec emax _ e' loc_Exact) as [mrs'' e''].
  destruct (shr_m mrs''); [reflexivity | | exact I].
  destruct (e'' <=? emax - prec); reflexivity.
Qed.

Lemma of_Z_sign (z : Z) (szero : bool) :
  (z <= 0 -> not_positive (of_Z z szero) = true)
  /\ (0 < z -> not_negative (of_Z z szero) = true).
Proof.
  unfold of_Z, binary_normalize.
  destruct z as [|p|p].
  - split; [reflexivity | lia].
  - split; [lia | intros _]. unfold binary_round.
    destruct (shl_align p 0 _) as [mz ez].
    pose proof (binary_round_aux_sign false (Z.pos mz) ez loc_Exact) as H.
    destruct (binary_round_aux prec emax false (Z.pos mz) ez loc_Exact);
      subst; reflexivity.
  - split; [intros _ | lia]. unfold binary_round.
    destruct (shl_align p 0 _) as [mz ez].
    pose proof (binary_round_aux_sign true (Z.pos mz) ez loc_Exact) as H.
    destruct (binary_round_aux prec emax true (Z.pos mz) ez loc_Exact);
      subst; reflexivity.
Qed.

Lemma js_div_not_positive (v d : number) :
  not_positive v = true -> not_negative d = true ->
  not_positive (js_div v d) = true.
Proof.
  intros Hv Hd.
  destruct v as [sv | [|] | | [|] mv ev]; try discriminate;
    destruct d as [[|] | [|] | | [|] md ed]; try discriminate;
    try reflexivity; try (destruct sv; reflexivity).
  unfold js_div, SFdiv.
  destruct (SFdiv_core_binary prec emax (Z.pos mv) ev (Z.pos md) ed)
    as [[mz ez] lz].
  pose proof (binary_round_aux_sign (xorb true false) mz ez lz) as H.
  destruct (binary_round_aux prec emax (xorb true false) mz ez lz);
    subst; reflexivity.
Qed.

Lemma js_mul_c0xff_not_positive (v : number) :
  not_positive v = true -> not_positive (js_mul v c0xff) = true.
Proof.
  intros Hv. rewrite c0xff_eq.
  destruct v as [sv | [|] | | [|] mv ev]; try discriminate;
    try reflexivity; try (destruct sv; reflexivity).
  unfold js_mul, SFmul.
  pose proof (binary_round_aux_sign (xorb true false)
                (Z.pos (mv * 8972014882652160)) (ev + -45) loc_Exact) as H.
  destruct (binary_round_aux prec emax (xorb true false)
              (Z.pos (mv * 8972014882652160)) (ev + -45) loc_Exact);
    subst; reflexivity.
Qed.

Lemma ToUint8Clamp_not_positive (v : number) :
  not_positive v = true -> ToUint8Clamp v = 0.
Proof. destruct v as [| [|] | | [|] m e]; try discriminate; reflexivity. Qed.

(** In a decoded graymap or pixmap with positive header width and
    height and a positive maxValue, a channel whose sample is zero or
    negative is stored as 0: the clamped array does not wrap around. *)
Theorem nonpositive_sample_is_stored_as_zero (can_allocate : Z -> bool)
    (ascii : jsstring) (format : NetPBMFormat) (img : ImageData)
    (p i : nat) (s d : Z) (sz dz : bool) :
  parse can_allocate ascii = Returns img ->
  detect_format ascii = Returns format -> format = P2 \/ format = P3 ->
  0 < header_int 0 ascii -> 0 < header_int 1 ascii ->
  Z.of_nat p < width img * height img -> (i < 3)%nat ->
  header_token 2 ascii = Some (of_Z d dz) -> 0 < d ->
  samples format ascii !! sample_index format p i = Some (of_Z s sz) ->
  s <= 0 ->
  data img !! (4 * p + i)%nat = Some 0.
Proof.
  intros Hp Hf Hfmt HW HH Hlt Hi Hd Hdp Hs Hsn.
  destruct (parse_pixel can_allocate ascii format img p Hp Hf HW HH Hlt)
    as [_ Hrgb].
  rewrite (Hrgb i Hi). f_equal. unfold channel_value. rewrite Hs.
  assert (Hdepth : declared_depth format ascii = Some (of_Z d dz))
    by (destruct Hfmt as [-> | ->]; exact Hd).
  rewrite Hdepth. cbn [ToNumber].
  assert (Hz : ToUint8Clamp (js_mul (js_div (of_Z s sz) (of_Z d dz)) c0xff) = 0).
  { apply ToUint8Clamp_not_positive, js_mul_c0xff_not_positive,
      js_div_not_positive.
    - apply of_Z_sign. exact Hsn.
    - apply of_Z_sign. exact Hdp. }
  destruct Hfmt as [-> | ->]; exact Hz.
Qed.

Lemma negative_sample_is_stored_as_zero :
  data {| width := 1; height := 1; data := [0; 0; 0; 255] |} !! (4 * 0 + 1)%nat
  = Some 0.
Proof.
  refine (nonpositive_sample_is_stored_as_zero up_to_2GiB gray_negative_sample
            P2 _ 0%nat 1%nat (-7) 255 true false _ _ _ _ _ _ _ _ _ _ _).
  - vm_compute. reflexivity.
  - reflexivity.
  - left. reflexivity.
  - vm_compute. reflexivity.
  - vm_compute. reflexivity.
  - vm_compute. reflexivity.
  - lia.
  - vm_compute. reflexivity.
  - lia.
  - vm_compute. reflexivity.
  - lia.
Defined.

(** ** The upper end of the channel range *)

(** In a decoded graymap or pixmap with positive header width and
    height, a channel whose sample equals the maxValue (an integer between
    1 and 2^53) is stored as 255: full scale is white for every maxValue. *)
Theorem full_scale_is_stored_as_255 (can_allocate : Z -> bool)
    (ascii : jsstring) (format : NetPBMFormat) (img : ImageData)
    (p i : nat) (d : Z) :
  parse can_allocate ascii = Returns img ->
  detect_format ascii = Returns format -> format = P2 \/ format = P3 ->
  0 < header_int 0 ascii -> 0 < header_int 1 ascii ->
  Z.of_nat p < width img * height img -> (i < 3)%nat ->
  header_token 2 ascii = Some (of_Z d false) -> 0 < d < 2 ^ 53 ->
  samples format ascii !! sample_index format p i = Some (of_Z d false) ->
  data img !! (4 * p + i)%nat = Some 255.
Proof.
  intros Hp Hf Hfmt HW HH Hlt Hi Hd Hdr Hs.
  destruct (parse_pixel can_allocate ascii format img p Hp Hf HW HH Hlt)
    as [_ Hrgb].
  rewrite (Hrgb i Hi). f_equal. unfold channel_value. rewrite Hs.
  assert (Hdepth : declared_depth format ascii = Some (of_Z d false))
    by (destruct Hfmt as [-> | ->]; exact Hd).
  rewrite Hdepth. cbn [ToNumber].
  destruct Hfmt as [-> | ->]; apply saturates; lia.
Qed.

Lemma full_scale_of_15_is_stored_as_255 :
  data {| width := 1; height := 1; data := [255; 255; 255; 255] |}
    !! (4 * 0 + 2)%nat
  = Some 255.
Proof.
  refine (full_scale_is_stored_as_255 up_to_2GiB gray_full_scale P2 _
            0%nat 2%nat 15 _ _ _ _ _ _ _ _ _ _).
  - vm_compute. reflexivity.
  - reflexivity.
  - left. reflexivity.
  - vm_compute. reflexivity.
  - vm_compute. reflexivity.
  - vm_compute. reflexivity.
  - lia.
  - vm_compute. reflexivity.
  - split; [lia | reflexivity].
  - vm_compute. reflexivity.
Defined.

(** ** What the decoder throws *)

(** The decoder throws three errors and no other: the unsupported-format
    Error, with the first two code units of the input in its message, the
    IndexSizeError of [new ImageData], and its RangeError. The [switch] of
    the constructor has no default case, yet [numbers] is never left
    undefined: no TypeError arises. *)
Theorem decoder_throws_three_errors (can_allocate : Z -> bool)
    (ascii : jsstring) (e : exn) :
  parse can_allocate ascii = Throws e ->
  e = Error (lit "Unsupported NetPBM format: " ++ take 2 ascii)
  \/ e = IndexSizeError \/ e = RangeError.
Proof.
  destruct (detect_format ascii) as [format | e' |] eqn:Hf.
  - rewrite (parse_render _ _ _ Hf). unfold render, new_ImageData. cbn [x y].
    destruct (_ || _); cbn [mbind outcome_bind]; [intros [= <-]; auto|].
    destruct (_ && _); cbn [mbind outcome_bind]; [|intros [= <-]; auto].
    repeat case_match; discriminate.
  - unfold parse, NetPBMImage_constructor. rewrite Hf.
    cbn [mbind outcome_bind]. intros [= <-]. left.
    unfold detect_format in Hf.
    destruct (MAGICS (take 2 ascii)); [discriminate|].
    injection Hf as <-. reflexivity.
  - unfold detect_format in Hf. destruct (MAGICS (take 2 ascii)); discriminate.
Qed.

Lemma decoder_throws_three_errors_P9 :
  Error (lit "Unsupported NetPBM format: P9")
  = Error (lit "Unsupported NetPBM format: " ++ take 2 magic_P9)
  \/ Error (lit "Unsupported NetPBM format: P9") = IndexSizeError
  \/ Error (lit "Unsupported NetPBM format: P9") = RangeError.
Proof.
  refine (decoder_throws_three_errors up_to_2GiB magic_P9 _ _).
  vm_compute. reflexivity.
Defined.



(** ** A graymap as a pixmap *)

Lemma lookup_thrice (l : list number) (p i : nat) :
  (i < 3)%nat -> flat_map (fun s => [s; s; s]) l !! (3 * p + i)%nat = l !! p.
Proof.
  intros Hi. revert p. induction l as [|a l IH]; intros p.
  - reflexivity.
  - destruct p as [|p].
    + destruct i as [|[|[|i]]]; [reflexivity | reflexivity | reflexivity | lia].
    + replace (3 * S p + i)%nat with (S (S (S (3 * p + i)))) by lia.
      cbn [flat_map app]. rewrite !lookup_cons. apply IH.
Qed.

Lemma render_pixel_thrice depth (l : list number) (p : nat) (d : list Z) :
  render_pixel P3 depth (flat_map (fun s => [s; s; s]) l) p d
  = render_pixel P2 depth l p d.
Proof.
  unfold render_pixel. cbn [for_loop seq fold_left numbersPerPixel].
  assert (H : forall i : nat, (i < 3)%nat ->
            flat_map (fun s => [s; s; s]) l !! (3 * p + i mod 3)%nat
            = l !! (1 * p + i mod 1)%nat).
  { intros i Hi. rewrite lookup_thrice by (apply Nat.mod_upper_bound; lia).
    f_equal. rewrite Nat.mod_1_r. lia. }
  rewrite (H 0%nat), (H 1%nat), (H 2%nat) by lia. reflexivity.
Qed.

(** A pixmap whose header numbers are those of a graymap and whose
    samples are the graymap's samples, each one three times, decodes like
    the graymap. *)
Theorem gray_pixmap_is_the_graymap (can_allocate : Z -> bool)
    (gray pix : jsstring) :
  detect_format gray = Returns P2 -> detect_format pix = Returns P3 ->
  header_token 0 pix = header_token 0 gray ->
  header_token 1 pix = header_token 1 gray ->
  header_token 2 pix = header_token 2 gray ->
  samples P3 pix = flat_map (fun s => [s; s; s]) (samples P2 gray) ->
  parse can_allocate pix = parse can_allocate gray.
Proof.
  intros Hg Hp H0 H1 H2 Hs.
  rewrite (parse_render _ _ _ Hg), (parse_render _ _ _ Hp), H0, H1, Hs.
  cbn [declared_depth]. rewrite H2. unfold render.
  destruct (new_ImageData _ _ _) as [img0 | e |]; cbn [mbind outcome_bind];
    try reflexivity.
  cbn [x y]. repeat case_match; try reflexivity.
  do 2 f_equal. apply for_loop_ext. intros py d _.
  apply for_loop_ext. intros px d' _. apply render_pixel_thrice.
Qed.

Lemma gray_pixmap_is_the_graymap_2x1 :
  parse up_to_2GiB pix_two_gray_pixels = parse up_to_2GiB gray_two_pixels.
Proof.
  refine (gray_pixmap_is_the_graymap up_to_2GiB gray_two_pixels
            pix_two_gray_pixels _ _ _ _ _ _);
    vm_compute; reflexivity.
Defined.

(** * The earlier decoder against the current one *)



(** For a graymap and for a pixmap, the pixel body of the current
    [render] stores what the body of [PPMCanvas.render] stored: the table
    of numbers per pixel and the index [i % numbersPerPixel] select the
    same samples as the two branches written out. *)
Theorem render_pixel_as_before (format : NetPBMFormat)
    (depth : option number) (numbers : list number) (pnum : nat)
    (d : list Z) :
  format = P2 \/ format = P3 ->
  render_pixel format depth numbers pnum d
  = PPMCanvas.render_pixel (Some format) depth numbers pnum d.
Proof.
  intros [-> | ->]; unfold render_pixel, PPMCanvas.render_pixel;
    cbn [for_loop seq fold_left numbersPerPixel].
  - replace (1 * pnum + 0 mod 1)%nat with pnum by (rewrite Nat.mod_1_r; lia).
    replace (1 * pnum + 1 mod 1)%nat with pnum by (rewrite Nat.mod_1_r; lia).
    replace (1 * pnum + 2 mod 1)%nat with pnum by (rewrite Nat.mod_1_r; lia).
    reflexivity.
  - reflexivity.
Qed.

Lemma render_pixel_as_before_gray :
  render_pixel P2 (Some c0xff) [of_Z 10 false] 0 [0; 0; 0; 0]
  = PPMCanvas.render_pixel (Some P2) (Some c0xff) [of_Z 10 false] 0
      [0; 0; 0; 0].
Proof.
  refine (render_pixel_as_before P2 (Some c0xff) [of_Z 10 false] 0%nat
            [0; 0; 0; 0] _).
  left. reflexivity.
Defined.

(** The earlier [detect_format] recognises the magics that the current
    one recognises, with the same format; for every other magic it returns
    [undefined], where the current one throws. *)
Theorem detect_format_as_before (imagedata : jsstring) :
  detect_format imagedata
  = match PPMCanvas.detect_format imagedata with
    | Some format => Returns format
    | None =>
        Throws (Error (lit "Unsupported NetPBM format: " ++ take 2 imagedata))
    end.
Proof.
  unfold detect_format, PPMCanvas.detect_format.
  destruct (MAGICS (take 2 imagedata)) as [f|] eqn:E.
  - apply MAGICS_inv in E as HM. revert E.
    destruct HM as [-> | [-> | ->]]; intros E; vm_compute in E |- *;
      congruence.
  - destruct (existsb _ _); reflexivity.
Qed.
